(** * Mini Shop: the catalog view and the cart ledger of [src/App.js]

    A shallow embedding of the pure logic of the [App] component: the
    derived lists [categories] and [filteredProducts], the cart handlers
    [addToCart], [removeFromCart] and [updateQuantity], the derived totals,
    the cart initializer that reads local storage and the effect that
    writes it, the buttons of [ProductCard] and [CartItem] that call the
    handlers, [clearFilters] and the hook [useDebounce].

    Conventions of the embedding.
    - JavaScript numbers: ids, stocks and quantities are integers ([Z]);
      prices are rationals ([Q]), a finite double being one.  The [+] and
      [*] of the price total round their exact result to the nearest
      double ([round64]); integer arithmetic on quantities is exact.
    - JavaScript strings are [string]s of 8-bit characters: the model is
      that of ASCII text, on which [toLowerCase] acts on the letters
      [A]-[Z], one by one.
    - [setCart (prev => e)] is the state transformer [fun prev => e] on the
      cart; a handler that returns before calling [setCart] leaves the cart
      as it is.
    - A disabled button does not call its [onClick]; time, for the
      timeout of [useDebounce], is counted in ticks. *)

From Stdlib Require Import List ZArith QArith Qabs Qpower Lqa String Ascii Bool Lia.
From Stdlib Require Import Sorting.Sorted Sorting.Permutation.
Import ListNotations.

#[local] Open Scope Z_scope.
#[local] Open Scope list_scope.

(** ** Data model *)

(** A product of the catalog, with the fields the component reads. *)
Module Product.
Record t : Type := mk {
  id : Z;
  title : string;
  category : string;
  price : Q;
  stock : Z;
  thumbnail : string
}.
End Product.

(** A cart line: the fields of the product it was created from, and a
    quantity. *)
Module CartItem.
Record t : Type := mk {
  id : Z;
  title : string;
  category : string;
  price : Q;
  stock : Z;
  thumbnail : string;
  quantity : Z
}.
End CartItem.

Definition Catalog : Type := list Product.t.
Definition Cart : Type := list CartItem.t.

(** [{ ...product, quantity: q }] *)
Definition spread_product (product : Product.t) (q : Z) : CartItem.t :=
  {| CartItem.id := Product.id product;
     CartItem.title := Product.title product;
     CartItem.category := Product.category product;
     CartItem.price := Product.price product;
     CartItem.stock := Product.stock product;
     CartItem.thumbnail := Product.thumbnail product;
     CartItem.quantity := q |}.

(** [{ ...item, quantity: q }] *)
Definition spread_item (item : CartItem.t) (q : Z) : CartItem.t :=
  {| CartItem.id := CartItem.id item;
     CartItem.title := CartItem.title item;
     CartItem.category := CartItem.category item;
     CartItem.price := CartItem.price item;
     CartItem.stock := CartItem.stock item;
     CartItem.thumbnail := CartItem.thumbnail item;
     CartItem.quantity := q |}.

(** ** Cart handlers (section 4 of [App]) *)

(** The callback of [prevCart.map] in [addToCart]. *)
Definition increment_line (pid : Z) (item : CartItem.t) : CartItem.t :=
  if CartItem.id item =? pid
  then spread_item item (CartItem.quantity item + 1)
  else item.

Definition addToCart (product : Product.t) (prevCart : Cart) : Cart :=
  match find (fun item => CartItem.id item =? Product.id product) prevCart with
  | Some existing =>
      if CartItem.quantity existing <? Product.stock product
      then map (increment_line (Product.id product)) prevCart
      else prevCart (* Max stock reached *)
  | None => prevCart ++ [spread_product product 1]
  end.

Definition removeFromCart (id : Z) (prev : Cart) : Cart :=
  filter (fun item => negb (CartItem.id item =? id)) prev.

(** The callback of [prev.map] in [updateQuantity]. *)
Definition set_line (id newQty : Z) (item : CartItem.t) : CartItem.t :=
  if CartItem.id item =? id then spread_item item newQty else item.

Definition updateQuantity (id newQty maxStock : Z) (prev : Cart) : Cart :=
  if (newQty <? 1) || (newQty >? maxStock)
  then prev
  else map (set_line id newQty) prev.

(** ** The arithmetic of JavaScript numbers

    A JavaScript number is an IEEE 754 double, and [x + y] and [x * y] are
    the exact sum and product rounded to the nearest double, to the one
    with the even significand when two are as near.  A finite double is a
    rational [m * 2^e] with [|m| < 2^53] and [-1074 <= e], and the rounding
    is computed on rationals.  A result of [2^1024] or more, which
    JavaScript turns into [Infinity], is outside the model, and so is the
    sign of zero. *)

(** The largest [k] with [2^k <= n/d]. *)
Definition floor_log2 (n d : positive) : Z :=
  let k := Z.log2 (Z.pos n) - Z.log2 (Z.pos d) in
  if (if 0 <=? k
      then Z.pos d * 2 ^ k <=? Z.pos n
      else Z.pos d <=? Z.pos n * 2 ^ (- k))
  then k
  else k - 1.

(** The integer nearest to [n/d], the even one of two that are as near. *)
Definition round_half_even (n d : Z) : Z :=
  let q := n / d in
  match 2 * (n mod d) ?= d with
  | Lt => q
  | Gt => q + 1
  | Eq => if Z.even q then q else q + 1
  end.

(** The double nearest to [n/d]: a significand of 53 bits at the exponent
    [e] of [n/d], which is not below that of the subnormal numbers. *)
Definition nearest_double (n d : positive) : Q :=
  let e := Z.max (floor_log2 n d - 52) (-1074) in
  if 0 <=? e
  then inject_Z (round_half_even (Z.pos n) (Z.pos d * 2 ^ e) * 2 ^ e)
  else round_half_even (Z.pos n * 2 ^ (- e)) (Z.pos d) # Z.to_pos (2 ^ (- e)).

Definition round64 (x : Q) : Q :=
  match Qnum (Qred x) with
  | 0 => 0%Q
  | Z.pos n => nearest_double n (Qden (Qred x))
  | Z.neg n => (- nearest_double n (Qden (Qred x)))%Q
  end.

(** [x + y] and [x * y] on numbers. *)
Definition double_add (x y : Q) : Q := round64 (x + y).
Definition double_mul (x y : Q) : Q := round64 (x * y).

(** The rationals that are doubles. *)
Definition is_double (x : Q) : Prop := (round64 x == x)%Q.

(** ** Calculated totals (section 5 of [App]) *)

Definition totalItems (cart : Cart) : Z :=
  fold_left (fun sum item => sum + CartItem.quantity item) cart 0.

Definition totalPrice (cart : Cart) : Q :=
  fold_left
    (fun sum item =>
       double_add sum
         (double_mul (CartItem.price item) (inject_Z (CartItem.quantity item))))
    cart 0%Q.

(** ** The cart invariant of the data model *)

(** A line holds between 1 and its captured stock. *)
Definition line_ok (item : CartItem.t) : Prop :=
  1 <= CartItem.quantity item <= CartItem.stock item.

Definition line_okb (item : CartItem.t) : bool :=
  (1 <=? CartItem.quantity item) && (CartItem.quantity item <=? CartItem.stock item).

Definition cart_inv (K : Cart) : Prop :=
  NoDup (map CartItem.id K) /\ Forall line_ok K.

Fixpoint distinct_ids (ids : list Z) : bool :=
  match ids with
  | [] => true
  | i :: rest => negb (existsb (Z.eqb i) rest) && distinct_ids rest
  end.

Definition cart_invb (K : Cart) : bool :=
  distinct_ids (map CartItem.id K) && forallb line_okb K.

(** The sums the totals are specified by. *)
Fixpoint sum_quantities (K : Cart) : Z :=
  match K with
  | [] => 0
  | item :: rest => CartItem.quantity item + sum_quantities rest
  end.

Fixpoint sum_line_prices (K : Cart) : Q :=
  match K with
  | [] => 0%Q
  | item :: rest =>
      (CartItem.price item * inject_Z (CartItem.quantity item)
       + sum_line_prices rest)%Q
  end.

(** No operation of [totalPrice] has to round: every [price * quantity]
    is a double, and so is every sum of the lines up to one of them, from
    the sum [sum] of the lines before. *)
Fixpoint no_rounding (sum : Q) (K : Cart) : Prop :=
  match K with
  | [] => True
  | item :: rest =>
      let line := (CartItem.price item * inject_Z (CartItem.quantity item))%Q in
      is_double line /\ is_double (sum + line) /\ no_rounding (sum + line)%Q rest
  end.

(** Every price is a whole number. *)
Definition whole_prices (K : Cart) : Prop :=
  forall item, In item K -> exists z : Z, (CartItem.price item == inject_Z z)%Q.

(** The sum of the sizes of the line prices. *)
Fixpoint sum_magnitudes (K : Cart) : Q :=
  match K with
  | [] => 0%Q
  | item :: rest =>
      (Qabs (CartItem.price item * inject_Z (CartItem.quantity item))
       + sum_magnitudes rest)%Q
  end.

(** ** Built-ins of the language used by the filter and sort logic *)

(** [String.prototype.toLowerCase] on ASCII text: the letters [A]-[Z]
    become [a]-[z], one by one. *)
Definition lower_char (c : ascii) : ascii :=
  let n := nat_of_ascii c in
  if ((65 <=? n) && (n <=? 90))%nat then ascii_of_nat (n + 32) else c.

Fixpoint toLowerCase (s : string) : string :=
  match s with
  | EmptyString => EmptyString
  | String c rest => String (lower_char c) (toLowerCase rest)
  end.

(** [s.startsWith(searchString)] *)
Fixpoint startsWith (s searchString : string) {struct searchString} : bool :=
  match searchString, s with
  | EmptyString, _ => true
  | String _ _, EmptyString => false
  | String a p, String b rest => Ascii.eqb a b && startsWith rest p
  end.

(** [String.prototype.includes]: [searchString] occurs in [s] at some
    position; the search string is a literal, not a pattern. *)
Fixpoint includes (s searchString : string) : bool :=
  startsWith s searchString ||
  match s with
  | EmptyString => false
  | String _ rest => includes rest searchString
  end.

(** [Array.prototype.sort (comparefn)].  The language requires the sort to
    be stable and, for a consistent comparator, to return the elements in
    the order of the comparator; these two requirements determine the
    result ([Array_sort_determined]), which is computed here by stable
    insertion: an element moves behind a later one only when [comparefn] of
    the two is positive. *)
Section ArraySort.
Context {A : Type}.
Variable comparefn : A -> A -> Q.

Fixpoint sort_insert (x : A) (sorted : list A) : list A :=
  match sorted with
  | [] => [x]
  | y :: rest =>
      if Qle_bool (comparefn x y) 0
      then x :: y :: rest
      else y :: sort_insert x rest
  end.

Definition Array_sort (l : list A) : list A :=
  fold_right sort_insert [] l.
End ArraySort.

(** [new Set(values)] and its iteration order: a value is added at the end
    unless it is already present. *)
Definition Set_add (s : list string) (v : string) : list string :=
  if existsb (String.eqb v) s then s else s ++ [v].

Definition Set_from (values : list string) : list string :=
  fold_left Set_add values [].

(** ** Filter and sort logic (section 3 of [App]) *)

Definition categories (products : Catalog) : list string :=
  "all"%string :: Set_from (map Product.category products).

(** The callback of the first [filter]. *)
Definition matches_search (debouncedSearch : string) (p : Product.t) : bool :=
  includes (toLowerCase (Product.title p)) (toLowerCase debouncedSearch).

(** The callback of the second [filter]. *)
Definition matches_category (selectedCategory : string) (p : Product.t) : bool :=
  String.eqb selectedCategory "all" || String.eqb (Product.category p) selectedCategory.

(** The comparator handed to [sort]. *)
Definition compare_price (sortOrder : string) (a b : Product.t) : Q :=
  if String.eqb sortOrder "low" then (Product.price a - Product.price b)%Q
  else if String.eqb sortOrder "high" then (Product.price b - Product.price a)%Q
  else 0%Q.

Definition filteredProducts (products : Catalog)
  (debouncedSearch selectedCategory sortOrder : string) : list Product.t :=
  Array_sort (compare_price sortOrder)
    (filter (matches_category selectedCategory)
       (filter (matches_search debouncedSearch) products)).

(** ** Notions the properties of the view are stated with *)

(** [sub] occurs in [s] as a run of consecutive characters. *)
Definition is_substring (sub s : string) : Prop :=
  exists before after : string, s = (before ++ sub ++ after)%string.

(** The search/category predicate of the filter state. *)
Definition visible (debouncedSearch selectedCategory : string) (p : Product.t) : Prop :=
  is_substring (toLowerCase debouncedSearch) (toLowerCase (Product.title p)) /\
  (selectedCategory <> "all"%string -> Product.category p = selectedCategory).

Definition visibleb (debouncedSearch selectedCategory : string) (p : Product.t) : bool :=
  matches_search debouncedSearch p && matches_category selectedCategory p.

(** [sub] is [l] with some elements left out, the others in their order. *)
Inductive subsequence {A : Type} : list A -> list A -> Prop :=
| subseq_nil : subsequence [] []
| subseq_skip : forall x sub l, subsequence sub l -> subsequence sub (x :: l)
| subseq_keep : forall x sub l, subsequence sub l -> subsequence (x :: sub) (x :: l).

Definition price_le (a b : Product.t) : Prop :=
  (Product.price a <= Product.price b)%Q.

Definition price_ge (a b : Product.t) : Prop :=
  (Product.price b <= Product.price a)%Q.

(** The products of [l] whose price is [v], in their order in [l]. *)
Definition with_price (v : Q) (l : list Product.t) : list Product.t :=
  filter (fun p => Qeq_bool (Product.price p) v) l.

(** The distinct values of a list in the order of their first occurrence. *)
Fixpoint first_seen (values : list string) : list string :=
  match values with
  | [] => []
  | v :: rest => v :: filter (fun w => negb (String.eqb w v)) (first_seen rest)
  end.

(** ** [JSON.parse] and the cart initializer *)

(** The values [JSON.parse] returns.  An object keeps its members in the
    order of the text; a repeated key keeps its place and takes the later
    value. *)
#[warnings="-register-all"]
Inductive json : Type :=
| JNull : json
| JBool : bool -> json
| JNumber : Q -> json
| JString : string -> json
| JArray : list json -> json
| JObject : list (string * json) -> json.

(** The outcome of reading a piece of JSON text: a value and the text left
    after it, or a syntax error.  [OutOfFuel] is the third outcome of the
    recursion on a counter; [JSON_parse] gives the counter enough (see
    [JSON_parse_enough_fuel]). *)
Inductive parsed (A : Type) : Type :=
| Parsed : A -> string -> parsed A
| SyntaxError : parsed A
| OutOfFuel : parsed A.
Arguments Parsed {A} _ _.
Arguments SyntaxError {A}.
Arguments OutOfFuel {A}.

Definition parsed_map {A B : Type} (f : A -> B) (p : parsed A) : parsed B :=
  match p with
  | Parsed v rest => Parsed (f v) rest
  | SyntaxError => SyntaxError
  | OutOfFuel => OutOfFuel
  end.

(** The character that opens and closes a string literal. *)
Definition double_quote : ascii := "034"%char.

(** JSON white space: space, tab, line feed, carriage return. *)
Definition is_ws (c : ascii) : bool :=
  let n := nat_of_ascii c in
  ((n =? 32) || (n =? 9) || (n =? 10) || (n =? 13))%nat.

Fixpoint skip_ws (s : string) : string :=
  match s with
  | String c rest => if is_ws c then skip_ws rest else s
  | EmptyString => s
  end.

(** The text after the literal [lit], when [s] starts with it. *)
Fixpoint strip_prefix (lit s : string) : option string :=
  match lit with
  | EmptyString => Some s
  | String a lit' =>
      match s with
      | String b rest => if Ascii.eqb a b then strip_prefix lit' rest else None
      | EmptyString => None
      end
  end.

Definition read_literal (lit : string) (v : json) (s : string) : parsed json :=
  match strip_prefix lit s with
  | Some rest => Parsed v rest
  | None => SyntaxError
  end.

Definition digit_value (c : ascii) : option Z :=
  let n := nat_of_ascii c in
  if ((48 <=? n) && (n <=? 57))%nat then Some (Z.of_nat (n - 48)) else None.

Definition hex_value (c : ascii) : option N :=
  let n := N_of_ascii c in
  if ((48 <=? n) && (n <=? 57))%N then Some (n - 48)%N
  else if ((97 <=? n) && (n <=? 102))%N then Some (n - 87)%N
  else if ((65 <=? n) && (n <=? 70))%N then Some (n - 55)%N
  else None.

(** The code unit of [\uXXXX].  The strings of the embedding have 8-bit
    characters: a code unit above 255 is kept modulo 256, which changes the
    characters of the string value only, never whether a text parses. *)
Definition hex4 (a b c d : ascii) : option ascii :=
  match hex_value a, hex_value b, hex_value c, hex_value d with
  | Some x, Some y, Some z, Some w =>
      Some (ascii_of_N ((((x * 16 + y) * 16 + z) * 16 + w) mod 256))
  | _, _, _, _ => None
  end.

(** The character a one-letter escape stands for. *)
Definition unescape (c : ascii) : option ascii :=
  if Ascii.eqb c double_quote then Some double_quote
  else if Ascii.eqb c "\" then Some "\"%char
  else if Ascii.eqb c "/" then Some "/"%char
  else if Ascii.eqb c "b" then Some (ascii_of_nat 8)
  else if Ascii.eqb c "f" then Some (ascii_of_nat 12)
  else if Ascii.eqb c "n" then Some (ascii_of_nat 10)
  else if Ascii.eqb c "r" then Some (ascii_of_nat 13)
  else if Ascii.eqb c "t" then Some (ascii_of_nat 9)
  else None.

Definition parsed_cons (c : ascii) (p : parsed string) : parsed string :=
  parsed_map (String c) p.

(** The characters of a string literal, from after its opening quote up to
    its closing quote. *)
Fixpoint read_string (s : string) : parsed string :=
  match s with
  | EmptyString => SyntaxError
  | String c rest =>
      if Ascii.eqb c double_quote then Parsed EmptyString rest
      else if Ascii.eqb c "\" then
        match rest with
        | EmptyString => SyntaxError
        | String e rest1 =>
            if Ascii.eqb e "u" then
              match rest1 with
              | String h1 (String h2 (String h3 (String h4 rest2))) =>
                  match hex4 h1 h2 h3 h4 with
                  | Some u => parsed_cons u (read_string rest2)
                  | None => SyntaxError
                  end
              | _ => SyntaxError
              end
            else
              match unescape e with
              | Some u => parsed_cons u (read_string rest1)
              | None => SyntaxError
              end
        end
      else if (nat_of_ascii c <? 32)%nat then SyntaxError
      else parsed_cons c (read_string rest)
  end.

(** Zero or more digits: their value after [acc], how many, the rest. *)
Fixpoint read_digits (s : string) (acc : Z) (count : nat) : Z * nat * string :=
  match s with
  | EmptyString => (acc, count, s)
  | String c rest =>
      match digit_value c with
      | Some d => read_digits rest (acc * 10 + d) (S count)
      | None => (acc, count, s)
      end
  end.

(** The integer part: [0], or a non-zero digit and more digits. *)
Definition read_int (s : string) : option (Z * string) :=
  match s with
  | EmptyString => None
  | String c rest =>
      match digit_value c with
      | None => None
      | Some d =>
          if d =? 0 then Some (0, rest)
          else let '(n, _, rest') := read_digits rest d 1 in Some (n, rest')
      end
  end.

(** The optional fraction: a dot and at least one digit. *)
Definition read_fraction (s : string) : option (Z * nat * string) :=
  match s with
  | String c rest =>
      if Ascii.eqb c "." then
        match read_digits rest 0 0 with
        | (_, O, _) => None
        | (f, S n, rest') => Some (f, S n, rest')
        end
      else Some (0, O, s)
  | EmptyString => Some (0, O, s)
  end.

(** The optional exponent: [e] or [E], a sign, at least one digit. *)
Definition read_exponent (s : string) : option (Z * string) :=
  match s with
  | String c rest =>
      if Ascii.eqb c "e" || Ascii.eqb c "E" then
        let '(negative, digits) :=
          match rest with
          | String sign rest' =>
              if Ascii.eqb sign "-" then (true, rest')
              else if Ascii.eqb sign "+" then (false, rest')
              else (false, rest)
          | EmptyString => (false, rest)
          end in
        match read_digits digits 0 0 with
        | (_, O, _) => None
        | (e, S _, rest') => Some (if negative then - e else e, rest')
        end
      else Some (0, s)
  | EmptyString => Some (0, s)
  end.

Definition read_number (s : string) : parsed Q :=
  let '(negative, digits) :=
    match s with
    | String c rest => if Ascii.eqb c "-" then (true, rest) else (false, s)
    | EmptyString => (false, s)
    end in
  match read_int digits with
  | None => SyntaxError
  | Some (int, s1) =>
      match read_fraction s1 with
      | None => SyntaxError
      | Some (frac, places, s2) =>
          match read_exponent s2 with
          | None => SyntaxError
          | Some (e, s3) =>
              let mantissa := int * 10 ^ Z.of_nat places + frac in
              let signed := if negative then - mantissa else mantissa in
              Parsed (inject_Z signed * Qpower (inject_Z 10) (e - Z.of_nat places))%Q s3
          end
      end
  end.

(** Defining a member of an object. *)
Fixpoint set_member (key : string) (v : json) (members : list (string * json))
  : list (string * json) :=
  match members with
  | [] => [(key, v)]
  | (k, w) :: rest =>
      if String.eqb k key then (k, v) :: rest
      else (k, w) :: set_member key v rest
  end.

(** The value at the start of [s], after white space.  [read_elements]
    reads the elements of an array after its opening bracket and
    [read_members] the members of an object after its opening brace, both
    known not to be empty. *)
Fixpoint read_value (fuel : nat) (s : string) : parsed json :=
  match fuel with
  | O => OutOfFuel
  | S fuel' =>
      match skip_ws s with
      | EmptyString => SyntaxError
      | String c rest =>
          if Ascii.eqb c "{" then
            match skip_ws rest with
            | String d rest' =>
                if Ascii.eqb d "}" then Parsed (JObject []) rest'
                else read_members fuel' rest []
            | EmptyString => SyntaxError
            end
          else if Ascii.eqb c "[" then
            match skip_ws rest with
            | String d rest' =>
                if Ascii.eqb d "]" then Parsed (JArray []) rest'
                else read_elements fuel' rest []
            | EmptyString => SyntaxError
            end
          else if Ascii.eqb c double_quote then parsed_map JString (read_string rest)
          else if Ascii.eqb c "t" then read_literal "true" (JBool true) (String c rest)
          else if Ascii.eqb c "f" then read_literal "false" (JBool false) (String c rest)
          else if Ascii.eqb c "n" then read_literal "null" JNull (String c rest)
          else parsed_map JNumber (read_number (String c rest))
      end
  end
with read_elements (fuel : nat) (s : string) (acc : list json) : parsed json :=
  match fuel with
  | O => OutOfFuel
  | S fuel' =>
      match read_value fuel' s with
      | Parsed v rest =>
          match skip_ws rest with
          | String c rest' =>
              if Ascii.eqb c "," then read_elements fuel' rest' (v :: acc)
              else if Ascii.eqb c "]" then Parsed (JArray (rev (v :: acc))) rest'
              else SyntaxError
          | EmptyString => SyntaxError
          end
      | SyntaxError => SyntaxError
      | OutOfFuel => OutOfFuel
      end
  end
with read_members (fuel : nat) (s : string) (acc : list (string * json))
  : parsed json :=
  match fuel with
  | O => OutOfFuel
  | S fuel' =>
      match skip_ws s with
      | EmptyString => SyntaxError
      | String q rest =>
          if Ascii.eqb q double_quote then
            match read_string rest with
            | Parsed key rest1 =>
                match skip_ws rest1 with
                | String c rest2 =>
                    if Ascii.eqb c ":" then
                      match read_value fuel' rest2 with
                      | Parsed v rest3 =>
                          match skip_ws rest3 with
                          | String d rest4 =>
                              if Ascii.eqb d ","
                              then read_members fuel' rest4 (set_member key v acc)
                              else if Ascii.eqb d "}"
                              then Parsed (JObject (set_member key v acc)) rest4
                              else SyntaxError
                          | EmptyString => SyntaxError
                          end
                      | SyntaxError => SyntaxError
                      | OutOfFuel => OutOfFuel
                      end
                    else SyntaxError
                | EmptyString => SyntaxError
                end
            | SyntaxError => SyntaxError
            | OutOfFuel => OutOfFuel
            end
          else SyntaxError
      end
  end.

(** How a call completes: with a value, or by throwing. *)
Inductive exception : Type :=
| SyntaxError_exn : exception.

Inductive completion (A : Type) : Type :=
| Return : A -> completion A
| Throw : exception -> completion A.
Arguments Return {A} _.
Arguments Throw {A} _.

(** [JSON.parse (text)]: one value with white space around it and nothing
    else, or a [SyntaxError]. *)
Definition JSON_parse (text : string) : completion json :=
  match read_value (2 * String.length text + 1) text with
  | Parsed v rest =>
      match skip_ws rest with
      | EmptyString => Return v
      | String _ _ => Throw SyntaxError_exn
      end
  | SyntaxError => Throw SyntaxError_exn
  | OutOfFuel => Throw SyntaxError_exn
  end.

(** [localStorage.getItem ("cart")] is [null] ([None]) or the string
    stored under the key. *)
Definition stored : Type := option string.

(** The initializer of the cart state:
    [saved ? JSON.parse(saved) : []], where [null] and the empty string are
    the falsy values of [saved]. *)
Definition initial_cart (saved : stored) : completion json :=
  match saved with
  | None => Return (JArray [])
  | Some EmptyString => Return (JArray [])
  | Some text => JSON_parse text
  end.

(** The JSON value of a cart line and of a cart, the value a stored cart
    parses to. *)
Definition json_of_item (item : CartItem.t) : json :=
  JObject
    [("id"%string, JNumber (inject_Z (CartItem.id item)));
     ("title"%string, JString (CartItem.title item));
     ("category"%string, JString (CartItem.category item));
     ("price"%string, JNumber (CartItem.price item));
     ("stock"%string, JNumber (inject_Z (CartItem.stock item)));
     ("thumbnail"%string, JString (CartItem.thumbnail item));
     ("quantity"%string, JNumber (inject_Z (CartItem.quantity item)))].

Definition json_of_cart (K : Cart) : json := JArray (map json_of_item K).

(** ** Sample data *)

Definition red_shirt : Product.t :=
  Product.mk 1 "Red Shirt" "clothing" 10 2 "shirt.png".

Definition sold_out_mug : Product.t :=
  Product.mk 7 "Mug" "kitchen" (7 # 2) 0 "mug.png".

(** The same product as [red_shirt], restocked to 5. *)
Definition restocked_shirt : Product.t :=
  Product.mk 1 "Red Shirt" "clothing" 10 5 "shirt.png".

Definition shirt_line (q : Z) : CartItem.t := spread_product red_shirt q.

Definition red_hat : Product.t :=
  Product.mk 2 "Big RED hat" "clothing" 5 3 "hat.png".

(** A second product at the price of [red_hat]. *)
Definition red_scarf : Product.t :=
  Product.mk 3 "Scarf, dark red" "clothing" 5 9 "scarf.png".

(** Two products priced 9.99 and 19.99: the price is the double nearest
    to the decimal number. *)
Definition blue_pen : Product.t :=
  Product.mk 4 "Blue pen" "stationery" (round64 (999 # 100)) 5 "pen.png".

Definition notebook : Product.t :=
  Product.mk 5 "Notebook" "stationery" (round64 (1999 # 100)) 5 "notebook.png".


Definition sample_catalog : Catalog :=
  [red_shirt; red_hat; sold_out_mug; red_scarf].

(** Sample texts are written with an apostrophe where the stored text has
    a double quote. *)
Fixpoint with_quotes (s : string) : string :=
  match s with
  | EmptyString => EmptyString
  | String c rest =>
      String (if Ascii.eqb c "'" then double_quote else c) (with_quotes rest)
  end.

(** ** The components that call the cart handlers *)

(** [ProductCard]: [isOutOfStock] disables the button, and a disabled
    button does not call its [onClick]. *)
Definition isOutOfStock (product : Product.t) : bool :=
  Product.stock product <=? 0.

Definition ProductCard_click (product : Product.t) (cart : Cart) : Cart :=
  if isOutOfStock product then cart else addToCart product cart.

(** [CartItem]: the [-] button is disabled at quantity 1 and below, the
    [+] button at the stock of the line and above; both pass the stock of
    the line as the ceiling. *)
Definition minus_disabled (item : CartItem.t) : bool :=
  CartItem.quantity item <=? 1.

Definition plus_disabled (item : CartItem.t) : bool :=
  CartItem.quantity item >=? CartItem.stock item.

Definition CartItem_minus (item : CartItem.t) (cart : Cart) : Cart :=
  if minus_disabled item then cart
  else updateQuantity (CartItem.id item) (CartItem.quantity item - 1)
         (CartItem.stock item) cart.

Definition CartItem_plus (item : CartItem.t) (cart : Cart) : Cart :=
  if plus_disabled item then cart
  else updateQuantity (CartItem.id item) (CartItem.quantity item + 1)
         (CartItem.stock item) cart.

Definition CartItem_remove (item : CartItem.t) (cart : Cart) : Cart :=
  removeFromCart (CartItem.id item) cart.

(** One click in the interface: on the button of the card of a product of
    the catalog, or on a button of an item the cart view renders, which is
    a line of the cart. *)
Inductive click (products : Catalog) (cart : Cart) : Cart -> Prop :=
| click_add : forall product,
    In product products -> click products cart (ProductCard_click product cart)
| click_minus : forall item,
    In item cart -> click products cart (CartItem_minus item cart)
| click_plus : forall item,
    In item cart -> click products cart (CartItem_plus item cart)
| click_remove : forall item,
    In item cart -> click products cart (CartItem_remove item cart).

(** The carts a session reaches from [cart] by clicks. *)
Inductive session (products : Catalog) (cart : Cart) : Cart -> Prop :=
| session_start : session products cart cart
| session_click : forall mid final,
    session products cart mid -> click products mid final ->
    session products cart final.

(** Every line of the cart captured the stock its product has in the
    catalog. *)
Definition stocks_agree (products : Catalog) (cart : Cart) : Prop :=
  forall item product,
    In item cart -> In product products ->
    CartItem.id item = Product.id product ->
    CartItem.stock item = Product.stock product.

(** The cart view shows its empty state when the cart has no line, the
    product grid when no product is left by the filters. *)
Definition cart_is_empty (cart : Cart) : bool :=
  Nat.eqb (List.length cart) 0.

Definition no_products_found (products : Catalog)
  (debouncedSearch selectedCategory sortOrder : string) : bool :=
  Nat.eqb
    (List.length (filteredProducts products debouncedSearch selectedCategory sortOrder))
    0.

(** ** The filter state and [clearFilters] *)

Record FilterState : Type := {
  searchTerm : string;
  selectedCategory : string;
  sortOrder : string
}.

(** The initial values of the three [useState] calls. *)
Definition initial_filters : FilterState :=
  {| searchTerm := ""; selectedCategory := "all"; sortOrder := "" |}.

Definition clearFilters (_ : FilterState) : FilterState :=
  {| searchTerm := ""; selectedCategory := "all"; sortOrder := "" |}.

(** ASCII text: every character is below 128. *)
Fixpoint is_ascii_text (s : string) : bool :=
  match s with
  | EmptyString => true
  | String c rest => (nat_of_ascii c <? 128)%nat && is_ascii_text rest
  end.

(** [String.prototype.toUpperCase] on one ASCII character: a letter
    [a]-[z] becomes [A]-[Z].  The label of an option of the category
    selector is [cat.charAt(0).toUpperCase() + cat.slice(1)]. *)
Definition upper_char (c : ascii) : ascii :=
  let n := nat_of_ascii c in
  if ((97 <=? n) && (n <=? 122))%nat then ascii_of_nat (n - 32) else c.

Definition option_label (cat : string) : string :=
  match cat with
  | EmptyString => EmptyString
  | String c rest => String (upper_char c) rest
  end.

(** ** [useDebounce]

    The hook keeps [debouncedValue] in a state cell.  Its effect runs at
    mount and after a render in which [value] changed: the cleanup of the
    previous run clears the pending timeout ([handler]), and a new one is set that
    stores the value of this render after [delay].  Time is counted in
    ticks; a timeout set with [delay] ticks to go fires on the tick that
    brings it to zero. *)
Module Debounce.
Record t : Type := mk {
  value : string;
  debouncedValue : string;
  handler : option (string * nat)
}.
End Debounce.

(** The first render: [useState(value)] and the first run of the effect. *)
Definition mount (v : string) (delay : nat) : Debounce.t :=
  Debounce.mk v v (Some (v, delay)).

(** A render with the value [v].  With [v] unchanged the dependencies of
    the effect are unchanged and nothing happens. *)
Definition render (v : string) (delay : nat) (h : Debounce.t) : Debounce.t :=
  if String.eqb v (Debounce.value h) then h
  else Debounce.mk v (Debounce.debouncedValue h) (Some (v, delay)).

(** One tick of time. *)
Definition tick (h : Debounce.t) : Debounce.t :=
  match Debounce.handler h with
  | None => h
  | Some (v, S (S remaining)) =>
      Debounce.mk (Debounce.value h) (Debounce.debouncedValue h)
        (Some (v, S remaining))
  | Some (v, _) => Debounce.mk (Debounce.value h) v None
  end.

Fixpoint ticks (n : nat) (h : Debounce.t) : Debounce.t :=
  match n with
  | O => h
  | S n' => ticks n' (tick h)
  end.

(** What happens to the hook: the input changes, or time passes. *)
Inductive hook_event : Type :=
| Input : string -> hook_event
| Tick : hook_event.

Definition hook_step (delay : nat) (h : Debounce.t) (e : hook_event) : Debounce.t :=
  match e with
  | Input v => render v delay h
  | Tick => tick h
  end.

Definition hook_run (delay : nat) (h : Debounce.t) (events : list hook_event)
  : Debounce.t :=
  fold_left (hook_step delay) events h.

(** The input keeps changing: it never holds a value for [delay] ticks in
    a row.  [quiet] counts the ticks since the input took the value
    [current]; an [Input] of the value the input already has changes
    nothing. *)
Fixpoint keeps_typing (delay quiet : nat) (current : string)
  (events : list hook_event) : bool :=
  match events with
  | [] => true
  | Input v :: rest =>
      if String.eqb v current then keeps_typing delay quiet current rest
      else keeps_typing delay 0 v rest
  | Tick :: rest =>
      (S quiet <? delay)%nat && keeps_typing delay (S quiet) current rest
  end.

(** The states of the hook: the handler waits for the value of the last
    render, for no longer than [delay]; when none waits, that value has
    been delivered. *)
Definition hook_inv (delay : nat) (h : Debounce.t) : Prop :=
  match Debounce.handler h with
  | Some (v, remaining) => v = Debounce.value h /\ (remaining <= delay)%nat
  | None => Debounce.debouncedValue h = Debounce.value h
  end.

(** Every line of the cart carries the fields of a product of the
    catalog, and a quantity within its stock. *)
Definition lines_from_catalog (products : Catalog) (cart : Cart) : Prop :=
  forall item, In item cart ->
    exists product,
      In product products /\
      item = spread_product product (CartItem.quantity item) /\
      1 <= CartItem.quantity item <= Product.stock product.

(** No two products of the list have the same price. *)
Fixpoint distinct_prices (l : list Product.t) : Prop :=
  match l with
  | [] => True
  | p :: rest =>
      Forall (fun p' => ~ (Product.price p == Product.price p')%Q) rest /\
      distinct_prices rest
  end.

(** ** [JSON.stringify] and the persisted cart *)

(** A hexadecimal digit, in lower case as [JSON.stringify] writes it. *)
Definition hex_digit (n : N) : ascii :=
  if (n <? 10)%N then ascii_of_N (48 + n) else ascii_of_N (87 + n).

(** How a character stands in a quoted string: the quote, the backslash
    and the control characters are escaped. *)
Definition quote_char (c : ascii) : string :=
  let n := N_of_ascii c in
  if Ascii.eqb c double_quote then String "\" (String double_quote EmptyString)
  else if Ascii.eqb c "\" then "\\"
  else if (n =? 8)%N then "\b"
  else if (n =? 9)%N then "\t"
  else if (n =? 10)%N then "\n"
  else if (n =? 12)%N then "\f"
  else if (n =? 13)%N then "\r"
  else if (n <? 32)%N then
    ("\u00" ++ String (hex_digit (n / 16)) (String (hex_digit (n mod 16)) EmptyString))%string
  else String c EmptyString.

Fixpoint quote_chars (s : string) : string :=
  match s with
  | EmptyString => EmptyString
  | String c rest => (quote_char c ++ quote_chars rest)%string
  end.

Definition QuoteJSONString (s : string) : string :=
  String double_quote (quote_chars s ++ String double_quote EmptyString).

Definition digit_char (d : Z) : ascii := ascii_of_nat (48 + Z.to_nat d).

(** The [k] low decimal digits of [n], the highest first. *)
Fixpoint digits_below (k : nat) (n : Z) : string :=
  match k with
  | O => EmptyString
  | S k' => String (digit_char ((n / 10 ^ Z.of_nat k') mod 10)) (digits_below k' n)
  end.

(** Without the leading zeros, but for the last digit. *)
Fixpoint strip_zeros (s : string) : string :=
  match s with
  | EmptyString => s
  | String c rest =>
      if Ascii.eqb c "0" then
        match rest with
        | EmptyString => s
        | String _ _ => strip_zeros rest
        end
      else s
  end.

(** The decimal digits of a natural number. *)
Definition decimal_digits (n : Z) : string :=
  strip_zeros (digits_below (S (Z.to_nat (Z.log2 n))) n).

(** The least number of decimal places, from [k] on and within [fuel]
    more, at which [num / den] is a whole number of units. *)
Fixpoint decimal_places (fuel k : nat) (num : Z) (den : positive) : option nat :=
  if (num * 10 ^ Z.of_nat k) mod Z.pos den =? 0 then Some k
  else
    match fuel with
    | O => None
    | S fuel' => decimal_places fuel' (S k) num den
    end.

(** [Number::toString] in radix 10, on the numbers it writes in plain
    decimal notation: zero and the decimal numbers from 10^-6 up to 10^21
    in absolute value.  The digits are those of the exact value.  [None]
    stands for the other numbers (exponent notation, and the rationals
    that are no decimal numbers, which no number of the program is). *)
Definition Number_toString (q : Q) : option string :=
  let num := Z.abs (Qnum q) in
  let den := Qden q in
  match decimal_places (Pos.size_nat den) 0 num den with
  | None => None
  | Some k =>
      let m := num * 10 ^ Z.of_nat k / Z.pos den in
      let sign := if Qnum q <? 0 then "-"%string else EmptyString in
      let whole := decimal_digits (m / 10 ^ Z.of_nat k) in
      let fraction :=
        match k with
        | O => EmptyString
        | S _ => String "." (digits_below k m)
        end in
      if m =? 0 then Some "0"%string
      else if (num <? 10 ^ 21 * Z.pos den) && (Z.pos den <=? num * 10 ^ 6)
      then Some (sign ++ whole ++ fraction)%string
      else None
  end.

(** The texts of a list, separated by commas. *)
Fixpoint comma_join (texts : list string) : string :=
  match texts with
  | [] => EmptyString
  | text :: rest =>
      match rest with
      | [] => text
      | _ :: _ => (text ++ String "," (comma_join rest))%string
      end
  end.

(** [JSON.stringify (value)] without indentation: the elements of an
    array and the members of an object are separated by commas, a member is
    its quoted key, a colon and its value. *)
Fixpoint JSON_stringify (v : json) : option string :=
  match v with
  | JNull => Some "null"%string
  | JBool true => Some "true"%string
  | JBool false => Some "false"%string
  | JNumber q => Number_toString q
  | JString s => Some (QuoteJSONString s)
  | JArray elements =>
      let fix each (l : list json) : option (list string) :=
        match l with
        | [] => Some []
        | x :: rest =>
            match JSON_stringify x, each rest with
            | Some text, Some texts => Some (text :: texts)
            | _, _ => None
            end
        end in
      match each elements with
      | Some texts => Some (String "[" (comma_join texts ++ "]"))%string
      | None => None
      end
  | JObject members =>
      let fix each (l : list (string * json)) : option (list string) :=
        match l with
        | [] => Some []
        | (key, x) :: rest =>
            match JSON_stringify x, each rest with
            | Some text, Some texts =>
                Some ((QuoteJSONString key ++ String ":" text)%string :: texts)
            | _, _ => None
            end
        end in
      match each members with
      | Some texts => Some (String "{" (comma_join texts ++ "}"))%string
      | None => None
      end
  end.

(** The effect that persists the cart:
    [localStorage.setItem ("cart", JSON.stringify (cart))].  The stored
    value is the text of the cart, when its numbers are among those
    [Number_toString] writes. *)
Definition persist (cart : Cart) : option stored :=
  match JSON_stringify (json_of_cart cart) with
  | Some text => Some (Some text)
  | None => None
  end.

(** Two values that differ at most in the way their numbers are written
    as fractions. *)
#[warnings="-register-all"]
Inductive json_equiv : json -> json -> Prop :=
| equiv_null : json_equiv JNull JNull
| equiv_bool : forall b, json_equiv (JBool b) (JBool b)
| equiv_number : forall q q', (q == q')%Q -> json_equiv (JNumber q) (JNumber q')
| equiv_string : forall s, json_equiv (JString s) (JString s)
| equiv_array : forall l l',
    Forall2 json_equiv l l' -> json_equiv (JArray l) (JArray l')
| equiv_object : forall m m',
    Forall2 (fun a b => fst a = fst b /\ json_equiv (snd a) (snd b)) m m' ->
    json_equiv (JObject m) (JObject m').

(** No object of the value has a key twice. *)
Fixpoint distinct_keys (v : json) : Prop :=
  match v with
  | JArray elements =>
      (fix all (l : list json) : Prop :=
         match l with
         | [] => True
         | x :: rest => distinct_keys x /\ all rest
         end) elements
  | JObject members =>
      NoDup (map fst members) /\
      (fix all (l : list (string * json)) : Prop :=
         match l with
         | [] => True
         | (_, x) :: rest => distinct_keys x /\ all rest
         end) members
  | _ => True
  end.

(** ** Notions the reading of a written value is stated with *)

(** The text goes on with no digit. *)
Definition no_digit (rest : string) : Prop :=
  match rest with
  | EmptyString => True
  | String c _ => digit_value c = None
  end.

(** Where a number ends: at the end of the text or before a character that
    continues no number. *)
Definition ends_number (rest : string) : Prop :=
  match rest with
  | EmptyString => True
  | String c _ =>
      digit_value c = None /\ Ascii.eqb c "." = false /\
      Ascii.eqb c "e" = false /\ Ascii.eqb c "E" = false
  end.

(** The first character of a number. *)
Definition starts_number (text : string) : Prop :=
  exists c tail, text = String c tail /\
    (c = "-"%char \/ exists d, 0 <= d < 10 /\ c = digit_char d).

(** The first character of a written value: no white space and no closing
    bracket. *)
Definition value_start (text : string) : Prop :=
  exists c tail, text = String c tail /\
    is_ws c = false /\ Ascii.eqb c "]" = false.

(** The text [text] reads back as the value [v], whatever ends it. *)
Definition reads_back (v : json) (text : string) : Prop :=
  value_start text /\
  forall rest, ends_number rest ->
    exists fuel v',
      read_value fuel (text ++ rest) = Parsed v' rest /\ json_equiv v' v.

(** The texts of the elements of an array and of the members of an
    object, as [JSON_stringify] writes them. *)
Fixpoint stringify_elements (l : list json) : option (list string) :=
  match l with
  | [] => Some []
  | x :: rest =>
      match JSON_stringify x, stringify_elements rest with
      | Some text, Some texts => Some (text :: texts)
      | _, _ => None
      end
  end.

Fixpoint stringify_members (l : list (string * json)) : option (list string) :=
  match l with
  | [] => Some []
  | (key, x) :: rest =>
      match JSON_stringify x, stringify_members rest with
      | Some text, Some texts =>
          Some ((QuoteJSONString key ++ String ":" text)%string :: texts)
      | _, _ => None
      end
  end.

(** The text of a member reads back as the member. *)
Definition member_reads_back (member : string * json) (text : string) : Prop :=
  exists written,
    text = (QuoteJSONString (fst member) ++ String ":" written)%string /\
    reads_back (snd member) written.

(** A line whose numbers [Number_toString] writes: whole numbers below
    10^21 in absolute value, and a price that is a decimal number in the
    range of the plain notation. *)
Definition printable_line (item : CartItem.t) : Prop :=
  Z.abs (CartItem.id item) < 10 ^ 21 /\
  Z.abs (CartItem.stock item) < 10 ^ 21 /\
  Z.abs (CartItem.quantity item) < 10 ^ 21 /\
  Number_toString (CartItem.price item) <> None.

(** * Lists *)

Lemma filter_subsequence {A : Type} (f : A -> bool) (l : list A) :
  subsequence (filter f l) l.
Proof.
  induction l as [|x rest IH]; simpl; [constructor|].
  destruct (f x); constructor; exact IH.
Qed.

Lemma filter_twice {A : Type} (f g h : A -> bool) (l : list A) :
  (forall x, h x = g x && f x) ->
  filter f (filter g l) = filter h l.
Proof.
  intros Hh. induction l as [|x rest IH]; simpl; [reflexivity|].
  rewrite Hh. destruct (g x); simpl; [|exact IH].
  destruct (f x); [f_equal|]; exact IH.
Qed.

(** * Properties of the cart ledger *)

(** ** Deciding the invariant *)

Lemma distinct_ids_NoDup (ids : list Z) :
  distinct_ids ids = true <-> NoDup ids.
Proof.
  induction ids as [|i rest IH]; simpl.
  - split; [constructor | reflexivity].
  - rewrite andb_true_iff, negb_true_iff, IH. split.
    + intros [Hfresh Hrest]. constructor; [|exact Hrest].
      intros Hin.
      assert (existsb (Z.eqb i) rest = true) as Hex
        by (apply existsb_exists; exists i; split; [exact Hin | apply Z.eqb_refl]).
      congruence.
    + intros Hnd. inversion Hnd as [|? ? Hfresh Hrest]; subst.
      split; [|exact Hrest].
      destruct (existsb (Z.eqb i) rest) eqn:Hex; [|reflexivity].
      apply existsb_exists in Hex as [j [Hin Hj]].
      apply Z.eqb_eq in Hj. subst j. contradiction.
Qed.

Lemma line_okb_spec (item : CartItem.t) :
  line_okb item = true <-> line_ok item.
Proof.
  unfold line_okb, line_ok.
  rewrite andb_true_iff, !Z.leb_le. reflexivity.
Qed.

Lemma cart_invb_spec (K : Cart) : cart_invb K = true <-> cart_inv K.
Proof.
  unfold cart_invb, cart_inv.
  rewrite andb_true_iff, distinct_ids_NoDup, forallb_forall, Forall_forall.
  split; intros [Hnd Hok]; (split; [exact Hnd|]);
    intros item Hin; apply line_okb_spec, Hok, Hin.
Qed.

(** ** The two [map] callbacks keep every field but the quantity *)

Lemma increment_line_id pid item :
  CartItem.id (increment_line pid item) = CartItem.id item.
Proof. unfold increment_line. destruct (_ =? _); reflexivity. Qed.

Lemma set_line_id id q item :
  CartItem.id (set_line id q item) = CartItem.id item.
Proof. unfold set_line. destruct (_ =? _); reflexivity. Qed.

Lemma set_line_stock id q item :
  CartItem.stock (set_line id q item) = CartItem.stock item.
Proof. unfold set_line. destruct (_ =? _); reflexivity. Qed.

Lemma map_ids_preserved (f : CartItem.t -> CartItem.t) (K : Cart) :
  (forall item, CartItem.id (f item) = CartItem.id item) ->
  map CartItem.id (map f K) = map CartItem.id K.
Proof.
  intros Hf. rewrite map_map. apply map_ext. exact Hf.
Qed.

(** A callback that only touches lines with the id [pid] leaves a cart
    without such a line as it is. *)
Lemma map_other_ids (f : CartItem.t -> CartItem.t) (pid : Z) (K : Cart) :
  (forall item, CartItem.id item <> pid -> f item = item) ->
  (forall item, In item K -> CartItem.id item <> pid) ->
  map f K = K.
Proof.
  intros Hf Hk. induction K as [|item rest IH]; simpl; [reflexivity|].
  rewrite Hf by (apply Hk; left; reflexivity).
  rewrite IH; [reflexivity|].
  intros other Hin. apply Hk. right. exact Hin.
Qed.

Lemma increment_line_other pid item :
  CartItem.id item <> pid -> increment_line pid item = item.
Proof.
  intros Hne. unfold increment_line.
  destruct (Z.eqb_spec (CartItem.id item) pid); [contradiction | reflexivity].
Qed.

Lemma set_line_other id q item :
  CartItem.id item <> id -> set_line id q item = item.
Proof.
  intros Hne. unfold set_line.
  destruct (Z.eqb_spec (CartItem.id item) id); [contradiction | reflexivity].
Qed.

(** With distinct ids, a callback that only touches the id [pid] changes
    the one line that has it, in place. *)
Lemma map_single_line (f : CartItem.t -> CartItem.t) (pid : Z)
  (before after : Cart) (line : CartItem.t) :
  (forall item, CartItem.id item <> pid -> f item = item) ->
  CartItem.id line = pid ->
  NoDup (map CartItem.id (before ++ line :: after)) ->
  map f (before ++ line :: after) = before ++ f line :: after.
Proof.
  intros Hf Hid Hnd.
  rewrite map_app. simpl.
  rewrite map_app in Hnd. simpl in Hnd.
  assert (~ In pid (map CartItem.id before) /\ ~ In pid (map CartItem.id after))
    as [Hb Ha].
  { apply NoDup_remove_2 in Hnd. rewrite Hid in Hnd.
    split; intros Hin; apply Hnd, in_or_app; [left | right]; exact Hin. }
  rewrite (map_other_ids f pid before), (map_other_ids f pid after);
    try exact Hf; try reflexivity.
  - intros item Hin Heq. apply Ha. rewrite <- Heq. apply in_map, Hin.
  - intros item Hin Heq. apply Hb. rewrite <- Heq. apply in_map, Hin.
Qed.

(** What [find] says about the lines of a cart. *)
Lemma find_line_none pid (K : Cart) :
  find (fun item => CartItem.id item =? pid) K = None ->
  forall item, In item K -> CartItem.id item <> pid.
Proof.
  intros Hnone item Hin Heq.
  pose proof (find_none _ _ Hnone item Hin) as Hneq. simpl in Hneq.
  apply Z.eqb_neq in Hneq. contradiction.
Qed.

Lemma find_line_some pid (K : Cart) existing :
  find (fun item => CartItem.id item =? pid) K = Some existing ->
  In existing K /\ CartItem.id existing = pid.
Proof.
  intros Hsome. apply find_some in Hsome as [Hin Heq].
  split; [exact Hin | apply Z.eqb_eq, Heq].
Qed.

(** With distinct ids, the line [find] returns is the only one that has
    the id. *)
Lemma unique_line (K : Cart) (a b : CartItem.t) :
  NoDup (map CartItem.id K) ->
  In a K -> In b K -> CartItem.id a = CartItem.id b -> a = b.
Proof.
  induction K as [|item rest IH]; simpl; intros Hnd Ha Hb Heq; [contradiction|].
  inversion Hnd as [|? ? Hfresh Hrest]; subst.
  destruct Ha as [Ha | Ha], Hb as [Hb | Hb]; subst.
  - reflexivity.
  - exfalso. apply Hfresh. rewrite Heq. apply in_map, Hb.
  - exfalso. apply Hfresh. rewrite <- Heq. apply in_map, Ha.
  - apply IH; assumption.
Qed.

Lemma NoDup_snoc (ids : list Z) (i : Z) :
  NoDup ids -> ~ In i ids -> NoDup (ids ++ [i]).
Proof.
  intros Hnd Hfresh.
  apply (Permutation_NoDup (l := i :: ids)).
  - apply Permutation_cons_append.
  - constructor; assumption.
Qed.

Lemma filter_ids_NoDup (f : CartItem.t -> bool) (K : Cart) :
  NoDup (map CartItem.id K) -> NoDup (map CartItem.id (filter f K)).
Proof.
  induction K as [|item rest IH]; simpl; intros Hnd; [constructor|].
  inversion Hnd as [|? ? Hfresh Hrest]; subst.
  destruct (f item); simpl; [|apply IH, Hrest].
  constructor; [|apply IH, Hrest].
  intros Hin. apply Hfresh.
  apply in_map_iff in Hin as [other [Hid Hin]].
  apply filter_In in Hin as [Hin _].
  rewrite <- Hid. apply in_map, Hin.
Qed.

(** ** The three handlers and the invariant *)

Lemma removeFromCart_inv (id : Z) (K : Cart) :
  cart_inv K -> cart_inv (removeFromCart id K).
Proof.
  intros [Hnd Hok]. split.
  - apply filter_ids_NoDup, Hnd.
  - apply Forall_forall. intros item Hin.
    apply filter_In in Hin as [Hin _].
    rewrite Forall_forall in Hok. apply Hok, Hin.
Qed.

Lemma updateQuantity_inv (id q maxStock : Z) (K : Cart) :
  cart_inv K ->
  (forall line, In line K -> CartItem.id line = id ->
                maxStock <= CartItem.stock line) ->
  cart_inv (updateQuantity id q maxStock K).
Proof.
  intros [Hnd Hok] Hceiling. unfold updateQuantity.
  destruct (q <? 1) eqn:Hlow; simpl; [split; assumption|].
  destruct (q >? maxStock) eqn:Hhigh; [split; assumption|].
  apply Z.ltb_ge in Hlow. rewrite Z.gtb_ltb in Hhigh. apply Z.ltb_ge in Hhigh.
  split.
  - rewrite map_ids_preserved by apply set_line_id. exact Hnd.
  - apply Forall_forall. intros item Hin.
    apply in_map_iff in Hin as [line [Hline Hin]]. subst item.
    rewrite Forall_forall in Hok. specialize (Hok line Hin).
    unfold set_line, line_ok in *.
    destruct (Z.eqb_spec (CartItem.id line) id) as [Heq | Hne]; simpl.
    + specialize (Hceiling line Hin Heq). lia.
    + exact Hok.
Qed.

Lemma addToCart_inv (P : Product.t) (K : Cart) :
  cart_inv K ->
  (find (fun item => CartItem.id item =? Product.id P) K = None ->
   1 <= Product.stock P) ->
  (forall existing,
     find (fun item => CartItem.id item =? Product.id P) K = Some existing ->
     Product.stock P <= CartItem.stock existing) ->
  cart_inv (addToCart P K).
Proof.
  intros [Hnd Hok] Hnew Hold. unfold addToCart.
  destruct (find _ K) as [existing|] eqn:Hfind.
  - destruct (Z.ltb_spec (CartItem.quantity existing) (Product.stock P))
      as [Hlt | Hge]; [|split; assumption].
    specialize (Hold existing eq_refl).
    apply find_line_some in Hfind as [Hex Hexid].
    split.
    + rewrite map_ids_preserved by apply increment_line_id. exact Hnd.
    + apply Forall_forall. intros item Hin.
      apply in_map_iff in Hin as [line [Hline Hin]]. subst item.
      rewrite Forall_forall in Hok. pose proof (Hok line Hin) as Hline.
      unfold increment_line.
      destruct (Z.eqb_spec (CartItem.id line) (Product.id P)) as [Heq | Hne];
        [|exact Hline].
      assert (line = existing) as ->
        by (apply (unique_line K); try assumption; congruence).
      unfold line_ok in *. simpl. lia.
  - pose proof (find_line_none _ _ Hfind) as Hfresh.
    specialize (Hnew eq_refl). split.
    + rewrite map_app. simpl. apply NoDup_snoc; [exact Hnd|].
      intros Hin. apply in_map_iff in Hin as [line [Hid Hin]].
      exact (Hfresh line Hin Hid).
    + apply Forall_app. split; [exact Hok|].
      constructor; [|constructor].
      unfold line_ok. simpl. lia.
Qed.

(** Where the first line with a given id sits. *)
Lemma find_first_line (pid : Z) (before after : Cart) (existing : CartItem.t) :
  (forall item, In item before -> CartItem.id item <> pid) ->
  CartItem.id existing = pid ->
  find (fun item => CartItem.id item =? pid) (before ++ existing :: after)
  = Some existing.
Proof.
  intros Hbefore Hid. induction before as [|item rest IH]; simpl.
  - rewrite Hid, Z.eqb_refl. reflexivity.
  - destruct (Z.eqb_spec (CartItem.id item) pid) as [Heq | Hne].
    + exfalso. apply (Hbefore item); [left; reflexivity | exact Heq].
    + apply IH. intros other Hin. apply Hbefore. right. exact Hin.
Qed.

Lemma find_no_line (pid : Z) (K : Cart) :
  (forall item, In item K -> CartItem.id item <> pid) ->
  find (fun item => CartItem.id item =? pid) K = None.
Proof.
  intros Hfresh. induction K as [|item rest IH]; simpl; [reflexivity|].
  destruct (Z.eqb_spec (CartItem.id item) pid) as [Heq | Hne].
  - exfalso. apply (Hfresh item); [left; reflexivity | exact Heq].
  - apply IH. intros other Hin. apply Hfresh. right. exact Hin.
Qed.

(** ** The totals as sums *)

Lemma totalItems_from (K : Cart) (start : Z) :
  fold_left (fun sum item => sum + CartItem.quantity item) K start
  = start + sum_quantities K.
Proof.
  revert start. induction K as [|item rest IH]; intros start; simpl.
  - lia.
  - rewrite IH. lia.
Qed.

(** ** Rounding to a double *)

Lemma round64_proper (x y : Q) : (x == y)%Q -> round64 x = round64 y.
Proof.
  intros Hxy. unfold round64. rewrite (Qred_complete x y Hxy). reflexivity.
Qed.

Lemma is_double_proper (x y : Q) : (x == y)%Q -> is_double x -> is_double y.
Proof.
  unfold is_double. intros Hxy Hx.
  rewrite <- (round64_proper x y Hxy), Hx. exact Hxy.
Qed.

Lemma no_rounding_proper (K : Cart) (sum sum' : Q) :
  (sum == sum')%Q -> no_rounding sum K -> no_rounding sum' K.
Proof.
  revert sum sum'. induction K as [|item rest IH]; intros sum sum' Hsum; simpl.
  - trivial.
  - intros [Hline [Hstep Hrest]]. split; [exact Hline|]. split.
    + apply (is_double_proper
               (sum + CartItem.price item * inject_Z (CartItem.quantity item)));
        [rewrite Hsum; reflexivity | exact Hstep].
    + apply (IH (sum + CartItem.price item * inject_Z (CartItem.quantity item))%Q);
        [rewrite Hsum; reflexivity | exact Hrest].
Qed.

Lemma Qred_inject_Z (z : Z) : Qred (inject_Z z) = inject_Z z.
Proof.
  pose proof (Qred_correct (inject_Z z)) as Hvalue.
  pose proof (gcd_Qred (inject_Z z)) as Hgcd.
  destruct (Qred (inject_Z z)) as [n d].
  unfold Qeq in Hvalue. simpl in Hvalue, Hgcd.
  rewrite Z.mul_1_r in Hvalue. subst n.
  rewrite Z.gcd_comm, (Z.mul_comm z), Z.gcd_mul_diag_l in Hgcd by lia.
  unfold inject_Z. f_equal; lia.
Qed.

Lemma round_half_even_whole (n : Z) : round_half_even n 1 = n.
Proof.
  unfold round_half_even. rewrite Z.mod_1_r, Z.div_1_r. reflexivity.
Qed.

(** A whole number below [2^53] is a double. *)
Lemma nearest_double_whole (n : positive) :
  Z.pos n < 2 ^ 53 -> (nearest_double n 1 == inject_Z (Z.pos n))%Q.
Proof.
  intros Hn.
  assert (0 <= Z.log2 (Z.pos n) < 53) as Hlog.
  { split; [apply Z.log2_nonneg | apply Z.log2_lt_pow2; lia]. }
  pose proof (Z.log2_spec (Z.pos n) eq_refl) as [Hlow _].
  unfold nearest_double, floor_log2.
  change (Z.log2 1) with 0. rewrite Z.sub_0_r.
  destruct (Z.leb_spec 0 (Z.log2 (Z.pos n))) as [_ | Hneg]; [|lia].
  destruct (Z.leb_spec (1 * 2 ^ Z.log2 (Z.pos n)) (Z.pos n)) as [_ | Hhigh]; [|lia].
  rewrite Z.max_l by lia.
  destruct (Z.leb_spec 0 (Z.log2 (Z.pos n) - 52)) as [Hexp | Hexp].
  - replace (Z.log2 (Z.pos n) - 52) with 0 by lia.
    change (1 * 2 ^ 0) with 1. rewrite round_half_even_whole, Z.mul_1_r.
    reflexivity.
  - rewrite round_half_even_whole. unfold Qeq, inject_Z. cbn [Qnum Qden].
    rewrite Z2Pos.id by (apply Z.pow_pos_nonneg; lia). ring.
Qed.

Lemma is_double_whole (x : Q) (z : Z) :
  (x == inject_Z z)%Q -> (Qabs x < inject_Z (2 ^ 53))%Q -> is_double x.
Proof.
  intros Hx Hsmall.
  apply (is_double_proper (inject_Z z)); [symmetry; exact Hx|].
  rewrite Hx in Hsmall. change (Qabs (inject_Z z)) with (inject_Z (Z.abs z)) in Hsmall.
  rewrite <- Zlt_Qlt in Hsmall.
  unfold is_double, round64. rewrite Qred_inject_Z.
  destruct z as [|n|n]; cbn [inject_Z Qnum Qden].
  - reflexivity.
  - apply nearest_double_whole. exact Hsmall.
  - rewrite (nearest_double_whole n Hsmall). reflexivity.
Qed.

(** ** The totals as sums *)

Lemma totalPrice_from (K : Cart) (start : Q) :
  no_rounding start K ->
  (fold_left
     (fun sum item =>
        double_add sum
          (double_mul (CartItem.price item) (inject_Z (CartItem.quantity item))))
     K start
   == start + sum_line_prices K)%Q.
Proof.
  revert start. induction K as [|item rest IH]; intros start; simpl.
  - intros _. ring.
  - intros [Hline [Hstep Hrest]].
    assert (double_add start
              (double_mul (CartItem.price item) (inject_Z (CartItem.quantity item)))
            == start + CartItem.price item * inject_Z (CartItem.quantity item))%Q
      as Hexact.
    { unfold double_add, double_mul.
      rewrite (round64_proper _
                 (start + CartItem.price item * inject_Z (CartItem.quantity item)))
        by (apply Qplus_comp; [reflexivity | exact Hline]).
      exact Hstep. }
    rewrite IH.
    + rewrite Hexact. ring.
    + apply (no_rounding_proper rest _ _ (Qeq_sym _ _ Hexact)). exact Hrest.
Qed.

Lemma sum_magnitudes_nonneg (K : Cart) : (0 <= sum_magnitudes K)%Q.
Proof.
  induction K as [|item rest IH]; cbn [sum_magnitudes].
  - apply Qle_refl.
  - pose proof (Qabs_nonneg
                  (CartItem.price item * inject_Z (CartItem.quantity item))).
    lra.
Qed.

Lemma whole_prices_no_rounding (K : Cart) (start : Q) (a : Z) :
  whole_prices K -> (start == inject_Z a)%Q ->
  (Qabs start + sum_magnitudes K < inject_Z (2 ^ 53))%Q ->
  no_rounding start K.
Proof.
  revert start a. induction K as [|item rest IH]; intros start a Hwhole Hstart Hsmall;
    cbn [no_rounding]; [trivial|].
  destruct (Hwhole item (or_introl eq_refl)) as [z Hz].
  cbn [sum_magnitudes] in Hsmall.
  pose proof (sum_magnitudes_nonneg rest) as Hrest.
  pose proof (Qabs_nonneg start) as Hpos.
  pose proof (Qabs_nonneg
                (CartItem.price item * inject_Z (CartItem.quantity item))) as Hline.
  pose proof (Qabs_triangle start
                (CartItem.price item * inject_Z (CartItem.quantity item))) as Htri.
  assert (CartItem.price item * inject_Z (CartItem.quantity item)
          == inject_Z (z * CartItem.quantity item))%Q as Hproduct
    by (rewrite Hz, inject_Z_mult; reflexivity).
  assert (start + CartItem.price item * inject_Z (CartItem.quantity item)
          == inject_Z (a + z * CartItem.quantity item))%Q as Hsum
    by (rewrite Hstart, Hproduct, inject_Z_plus; reflexivity).
  split; [|split].
  - apply (is_double_whole _ _ Hproduct). lra.
  - apply (is_double_whole _ _ Hsum). lra.
  - apply (IH _ _ (fun other Hin => Hwhole other (or_intror Hin)) Hsum).
    lra.
Qed.

(** ** Claims about the cart ledger *)

(** C1, as the claim states it, fails, for [addToCart] and for
    [updateQuantity].  Adding a product whose stock is 0 to a cart without
    a line for it creates a line of quantity 1, above its ceiling 0 (the
    handler has no guard; the [Add to Cart] button of a sold-out product is
    disabled instead).  Adding a product that arrives with a stock above the
    one its line captured grows the line past its ceiling, and so does
    setting a quantity under a ceiling above the stock of the line. *)
Lemma cart_operations_can_break_invariant :
  (cart_inv [] /\ ~ cart_inv (addToCart sold_out_mug [])) /\
  (cart_inv [shirt_line 2] /\
   ~ cart_inv (addToCart restocked_shirt [shirt_line 2])) /\
  (cart_inv [shirt_line 1] /\
   ~ cart_inv (updateQuantity 1 5 10 [shirt_line 1])).
Proof.
  repeat split;
    try (apply cart_invb_spec; reflexivity);
    intros H; apply cart_invb_spec in H; discriminate H.
Qed.

(** C1 (amended): every cart operation preserves the cart invariant when
    it is called the way the interface calls it.  For a cart [K] with
    distinct ids and every quantity within 1 and the line's stock:
    [removeFromCart] preserves the invariant for every id; [addToCart]
    preserves it for a product that has stock at least 1 when the cart has
    no line for it, and whose stock does not exceed the stock captured by
    its line when there is one; [updateQuantity] preserves it when the
    ceiling passed does not exceed the stock of the lines with that id. *)
Theorem cart_operations_preserve_invariant (K : Cart) :
  cart_inv K ->
  (forall P : Product.t,
     (find (fun item => CartItem.id item =? Product.id P) K = None ->
      1 <= Product.stock P) ->
     (forall existing,
        find (fun item => CartItem.id item =? Product.id P) K = Some existing ->
        Product.stock P <= CartItem.stock existing) ->
     cart_inv (addToCart P K)) /\
  (forall id : Z, cart_inv (removeFromCart id K)) /\
  (forall id q maxStock : Z,
     (forall line, In line K -> CartItem.id line = id ->
                   maxStock <= CartItem.stock line) ->
     cart_inv (updateQuantity id q maxStock K)).
Proof.
  intros HK. split; [|split].
  - intros P Hnew Hold. apply addToCart_inv; assumption.
  - intros id. apply removeFromCart_inv, HK.
  - intros id q maxStock Hceiling. apply updateQuantity_inv; assumption.
Qed.

Lemma cart_operations_preserve_invariant_witness :
  cart_inv [shirt_line 1] /\
  cart_inv (addToCart red_shirt [shirt_line 1]) /\
  cart_inv (removeFromCart 1 [shirt_line 1]) /\
  cart_inv (updateQuantity 1 2 2 [shirt_line 1]).
Proof.
  assert (cart_inv [shirt_line 1]) as HK by (apply cart_invb_spec; reflexivity).
  destruct (cart_operations_preserve_invariant [shirt_line 1] HK)
    as [Hadd [Hremove Hupdate]].
  split; [exact HK|]. split; [|split].
  - apply Hadd.
    + intros Hnone. discriminate Hnone.
    + intros existing Hsome. injection Hsome as <-. simpl. lia.
  - apply Hremove.
  - apply Hupdate. intros line [<- | []] _. simpl. lia.
Defined.

(** C3, as the claim states it, fails: the ceiling [addToCart] compares
    with is the stock of the product passed in, not the stock captured by
    the line.  A line at its captured ceiling 2 still grows when the product
    comes with stock 5. *)
Lemma addToCart_ignores_captured_stock :
  In (shirt_line 2) [shirt_line 2] /\
  CartItem.id (shirt_line 2) = Product.id restocked_shirt /\
  ~ (CartItem.quantity (shirt_line 2) < CartItem.stock (shirt_line 2)) /\
  addToCart restocked_shirt [shirt_line 2] <> [shirt_line 2].
Proof.
  split; [left; reflexivity|]. split; [reflexivity|]. split.
  - simpl. lia.
  - intros H. discriminate H.
Qed.

(** C3 (amended): for every cart [K] and product [P], if [K] has no line
    with the id of [P], [addToCart] appends a line of quantity 1 that copies
    the fields of [P]; if [K] has a line with that id (the first one
    counts) whose quantity is strictly below the stock of [P], every line
    with that id has its quantity incremented by 1, which for a cart with
    distinct ids changes that line alone, in place; otherwise (the quantity
    has reached the stock of [P]) the cart is returned unchanged. *)
Theorem addToCart_cases (P : Product.t) (K : Cart) :
  spread_product P 1
  = CartItem.mk (Product.id P) (Product.title P) (Product.category P)
      (Product.price P) (Product.stock P) (Product.thumbnail P) 1 /\
  ((forall item, In item K -> CartItem.id item <> Product.id P) ->
   addToCart P K = K ++ [spread_product P 1]) /\
  (forall before existing after,
     K = before ++ existing :: after ->
     (forall item, In item before -> CartItem.id item <> Product.id P) ->
     CartItem.id existing = Product.id P ->
     (CartItem.quantity existing < Product.stock P ->
      addToCart P K = map (increment_line (Product.id P)) K /\
      (NoDup (map CartItem.id K) ->
       addToCart P K
       = before ++ spread_item existing (CartItem.quantity existing + 1) :: after)) /\
     (Product.stock P <= CartItem.quantity existing ->
      addToCart P K = K)).
Proof.
  split; [reflexivity|]. split.
  - intros Hfresh. unfold addToCart.
    rewrite (find_no_line _ _ Hfresh). reflexivity.
  - intros before existing after -> Hbefore Hid.
    assert (addToCart P (before ++ existing :: after)
            = if CartItem.quantity existing <? Product.stock P
              then map (increment_line (Product.id P)) (before ++ existing :: after)
              else before ++ existing :: after) as Hadd.
    { unfold addToCart. rewrite (find_first_line _ _ _ _ Hbefore Hid). reflexivity. }
    split.
    + intros Hlt. apply Z.ltb_lt in Hlt. rewrite Hlt in Hadd. split; [exact Hadd|].
      intros Hnd. rewrite Hadd.
      rewrite (map_single_line _ (Product.id P));
        [| apply increment_line_other | exact Hid | exact Hnd].
      unfold increment_line. rewrite Hid, Z.eqb_refl. reflexivity.
    + intros Hge. apply Z.ltb_ge in Hge. rewrite Hge in Hadd. exact Hadd.
Qed.

Lemma addToCart_cases_witness :
  addToCart red_shirt [] = [shirt_line 1] /\
  addToCart red_shirt [shirt_line 1] = [shirt_line 2] /\
  addToCart red_shirt [shirt_line 2] = [shirt_line 2].
Proof.
  split; [|split].
  - apply (addToCart_cases red_shirt []). intros item [].
  - destruct (addToCart_cases red_shirt [shirt_line 1]) as [_ [_ Hline]].
    destruct (Hline [] (shirt_line 1) [] eq_refl) as [Hgrow _].
    + intros item [].
    + reflexivity.
    + apply Hgrow.
      * simpl. lia.
      * apply distinct_ids_NoDup. reflexivity.
  - destruct (addToCart_cases red_shirt [shirt_line 2]) as [_ [_ Hline]].
    destruct (Hline [] (shirt_line 2) [] eq_refl) as [_ Hfull].
    + intros item [].
    + reflexivity.
    + apply Hfull. simpl. lia.
Defined.

(** C4, as the claim states it, fails: [updateQuantity] checks the new
    quantity against the ceiling its caller passes, not against the stock of
    the line.  With a ceiling of 10 passed for a line of stock 2, the
    quantity 5, outside [1, 2], is stored. *)
Lemma updateQuantity_out_of_range_changes_cart :
  In (shirt_line 1) [shirt_line 1] /\
  CartItem.id (shirt_line 1) = 1 /\
  ~ (1 <= 5 <= CartItem.stock (shirt_line 1)) /\
  updateQuantity 1 5 10 [shirt_line 1] <> [shirt_line 1].
Proof.
  split; [left; reflexivity|]. split; [reflexivity|]. split.
  - simpl. lia.
  - intros H. discriminate H.
Qed.

(** C4 (amended): for every cart [K], id, quantity [q] and ceiling
    [maxStock] passed by the caller, [updateQuantity] returns [K] unchanged
    whenever [q] is outside [1, maxStock] (below 1 or above the ceiling),
    and whenever no line of [K] has the id; in particular, when the ceiling
    passed is the stock of the line, as at both call sites of the cart
    view, every [q] outside [1, stock of the line] leaves [K] unchanged. *)
Theorem updateQuantity_noop (K : Cart) (id q maxStock : Z) :
  (q < 1 \/ maxStock < q -> updateQuantity id q maxStock K = K) /\
  ((forall item, In item K -> CartItem.id item <> id) ->
   updateQuantity id q maxStock K = K) /\
  (forall line,
     In line K -> CartItem.id line = id -> maxStock = CartItem.stock line ->
     ~ (1 <= q <= CartItem.stock line) ->
     updateQuantity id q maxStock K = K).
Proof.
  assert (q < 1 \/ maxStock < q -> updateQuantity id q maxStock K = K) as Hguard.
  { intros Hout. unfold updateQuantity.
    destruct (Z.ltb_spec q 1) as [Hlow | Hlow]; [reflexivity|].
    rewrite Z.gtb_ltb.
    destruct (Z.ltb_spec maxStock q) as [Hhigh | Hhigh]; [reflexivity | lia]. }
  split; [exact Hguard|]. split.
  - intros Hfresh. unfold updateQuantity.
    destruct (_ || _); [reflexivity|].
    apply (map_other_ids _ id); [apply set_line_other | exact Hfresh].
  - intros line _ _ -> Hout. apply Hguard. lia.
Qed.

Lemma updateQuantity_noop_witness :
  updateQuantity 1 0 2 [shirt_line 1] = [shirt_line 1] /\
  updateQuantity 1 3 2 [shirt_line 1] = [shirt_line 1] /\
  updateQuantity 9 2 2 [shirt_line 1] = [shirt_line 1] /\
  updateQuantity 1 5 (CartItem.stock (shirt_line 1)) [shirt_line 1] = [shirt_line 1].
Proof.
  split; [|split; [|split]].
  - destruct (updateQuantity_noop [shirt_line 1] 1 0 2) as [Hguard _].
    apply Hguard. left. lia.
  - destruct (updateQuantity_noop [shirt_line 1] 1 3 2) as [Hguard _].
    apply Hguard. right. lia.
  - destruct (updateQuantity_noop [shirt_line 1] 9 2 2) as [_ [Hfresh _]].
    apply Hfresh. intros item [<- | []]. simpl. lia.
  - destruct (updateQuantity_noop [shirt_line 1] 1 5 2) as [_ [_ Hsite]].
    apply (Hsite (shirt_line 1)).
    + left. reflexivity.
    + reflexivity.
    + reflexivity.
    + simpl. lia.
Defined.




(** C7: for every cart [K] and id, [removeFromCart] returns the lines of
    [K] whose id is different, in their order in [K]: for a cart with
    distinct ids that has a line with the id, that is [K] with this line
    taken out and the lines before and after it as they were; a cart
    without a line with the id is returned with the same contents. *)
Theorem removeFromCart_deletes_line (K : Cart) (id : Z) :
  ((forall item, In item K -> CartItem.id item <> id) ->
   removeFromCart id K = K) /\
  (forall before line after,
     K = before ++ line :: after ->
     NoDup (map CartItem.id K) ->
     CartItem.id line = id ->
     removeFromCart id K = before ++ after) /\
  (forall item,
     In item (removeFromCart id K) <-> In item K /\ CartItem.id item <> id) /\
  subsequence (removeFromCart id K) K.
Proof.
  assert (forall L : Cart,
            (forall item, In item L -> CartItem.id item <> id) ->
            removeFromCart id L = L) as Hkeep.
  { intros L HL. unfold removeFromCart.
    induction L as [|item rest IH]; simpl; [reflexivity|].
    destruct (Z.eqb_spec (CartItem.id item) id) as [Heq | Hne]; simpl.
    - exfalso. apply (HL item); [left; reflexivity | exact Heq].
    - f_equal. apply IH. intros other Hin. apply HL. right. exact Hin. }
  split; [apply Hkeep|]. split; [|split].
  - intros before line after -> Hnd Hid.
    rewrite map_app in Hnd. simpl in Hnd.
    pose proof (NoDup_remove_2 _ _ _ Hnd) as Hfresh. rewrite Hid in Hfresh.
    unfold removeFromCart. rewrite filter_app. simpl.
    rewrite Hid, Z.eqb_refl. simpl.
    fold (removeFromCart id before). fold (removeFromCart id after).
    rewrite !Hkeep; [reflexivity| |].
    + intros item Hin Heq. apply Hfresh, in_or_app. right.
      rewrite <- Heq. apply in_map, Hin.
    + intros item Hin Heq. apply Hfresh, in_or_app. left.
      rewrite <- Heq. apply in_map, Hin.
  - intros item. unfold removeFromCart. rewrite filter_In, negb_true_iff.
    rewrite Z.eqb_neq. reflexivity.
  - apply filter_subsequence.
Qed.

Lemma removeFromCart_deletes_line_witness :
  removeFromCart 9 [shirt_line 1] = [shirt_line 1] /\
  removeFromCart 1 [spread_product sold_out_mug 1; shirt_line 2]
  = [spread_product sold_out_mug 1].
Proof.
  split.
  - destruct (removeFromCart_deletes_line [shirt_line 1] 9) as [Habsent _].
    apply Habsent. intros item [<- | []]. simpl. lia.
  - destruct (removeFromCart_deletes_line
                [spread_product sold_out_mug 1; shirt_line 2] 1)
      as [_ [Hpresent _]].
    apply (Hpresent [spread_product sold_out_mug 1] (shirt_line 2) []).
    + reflexivity.
    + apply distinct_ids_NoDup. reflexivity.
    + reflexivity.
Defined.

(** C5, as the claim states it, fails: [totalPrice] adds the line prices
    up as JavaScript numbers, and each sum is rounded to the nearest double.
    For one item at 9.99 and one at 19.99 (the doubles nearest to them) the
    total is the double 29.979999999999997, below the sum of the two
    prices. *)
Lemma totalPrice_rounds_each_sum :
  is_double (Product.price blue_pen) /\
  is_double (Product.price notebook) /\
  (sum_line_prices [spread_product blue_pen 1; spread_product notebook 1]
   == 16877239603570933 # 562949953421312)%Q /\
  (totalPrice [spread_product blue_pen 1; spread_product notebook 1]
   == 4219309900892733 # 140737488355328)%Q /\
  ~ (totalPrice [spread_product blue_pen 1; spread_product notebook 1]
     == sum_line_prices [spread_product blue_pen 1; spread_product notebook 1])%Q.
Proof.
  split; [vm_compute; reflexivity|]. split; [vm_compute; reflexivity|].
  split; [vm_compute; reflexivity|]. split; [vm_compute; reflexivity|].
  intros Hsame. vm_compute in Hsame. discriminate Hsame.
Qed.

(** C5 (amended): for every cart, [totalItems] is the sum of the
    quantities of its lines.  [totalPrice] is the sum of price times
    quantity over its lines, added up in the order of the cart from 0 as
    JavaScript numbers: the total of a cart with one more line at its end is
    the total of the cart plus the price times the quantity of that line,
    each product and each sum rounded to the nearest double, and nothing
    rounds it to two decimals.  It is the exact sum whenever no product and
    no sum has to round, as when every price is a whole number and the
    sizes of the line prices add up to less than 2^53.  Both totals of the
    empty cart are 0. *)
Theorem totals_are_sums (K : Cart) :
  totalItems K = sum_quantities K /\
  (forall line,
     totalPrice (K ++ [line])
     = double_add (totalPrice K)
         (double_mul (CartItem.price line) (inject_Z (CartItem.quantity line)))) /\
  (no_rounding 0 K -> (totalPrice K == sum_line_prices K)%Q) /\
  (whole_prices K -> (sum_magnitudes K < inject_Z (2 ^ 53))%Q ->
   (totalPrice K == sum_line_prices K)%Q) /\
  totalItems [] = 0 /\
  totalPrice [] = 0%Q.
Proof.
  split; [|split; [|split; [|split; [|split; reflexivity]]]].
  - unfold totalItems. rewrite totalItems_from. lia.
  - intros line. unfold totalPrice. rewrite fold_left_app. reflexivity.
  - intros Hexact. unfold totalPrice.
    rewrite (totalPrice_from K 0 Hexact). ring.
  - intros Hwhole Hsmall. unfold totalPrice.
    rewrite (totalPrice_from K 0).
    + ring.
    + apply (whole_prices_no_rounding K 0 0 Hwhole); [reflexivity|].
      change (Qabs 0) with 0%Q. rewrite Qplus_0_l. exact Hsmall.
Qed.

Lemma totals_are_sums_witness :
  (totalPrice [shirt_line 2; spread_product sold_out_mug 3]
   == sum_line_prices [shirt_line 2; spread_product sold_out_mug 3])%Q /\
  (totalPrice [shirt_line 2; spread_product red_hat 3]
   == sum_line_prices [shirt_line 2; spread_product red_hat 3])%Q.
Proof.
  split.
  - destruct (totals_are_sums [shirt_line 2; spread_product sold_out_mug 3])
      as [_ [_ [Hexact _]]].
    apply Hexact. repeat split; vm_compute; reflexivity.
  - destruct (totals_are_sums [shirt_line 2; spread_product red_hat 3])
      as [_ [_ [_ [Hwhole _]]]].
    apply Hwhole.
    + intros item [<- | [<- | []]]; [exists 10 | exists 5]; reflexivity.
    + vm_compute. reflexivity.
Defined.

(** * Properties of the catalog view *)

(** ** [includes] finds exactly the substrings *)

Lemma startsWith_spec (s p : string) :
  startsWith s p = true <-> exists after, s = (p ++ after)%string.
Proof.
  revert s. induction p as [|a p IH]; intros s; simpl.
  - split; [intros _; exists s; reflexivity | reflexivity].
  - destruct s as [|b rest].
    + split; [discriminate | intros [after H]; discriminate H].
    + rewrite andb_true_iff, Ascii.eqb_eq, IH. split.
      * intros [-> [after ->]]. exists after. reflexivity.
      * intros [after H]. injection H as -> ->. split; [reflexivity|].
        exists after. reflexivity.
Qed.

Lemma includes_spec (s sub : string) :
  includes s sub = true <-> is_substring sub s.
Proof.
  unfold is_substring. induction s as [|c rest IH].
  - simpl. rewrite orb_false_r, startsWith_spec. split.
    + intros [after H]. exists EmptyString, after. exact H.
    + intros [before [after H]].
      destruct before as [|b before]; [|discriminate H].
      exists after. exact H.
  - cbn [includes]. rewrite orb_true_iff, startsWith_spec, IH. split.
    + intros [[after H] | [before [after H]]].
      * exists EmptyString, after. exact H.
      * exists (String c before), after. simpl. rewrite H. reflexivity.
    + intros [before [after H]]. destruct before as [|b before].
      * left. exists after. exact H.
      * right. simpl in H. injection H as _ H.
        exists before, after. exact H.
Qed.

(** ** The sort *)

Section ArraySortFacts.
Context {A : Type}.
Variable comparefn : A -> A -> Q.

Lemma sort_insert_perm (x : A) (l : list A) :
  Permutation (sort_insert comparefn x l) (x :: l).
Proof.
  induction l as [|y rest IH]; simpl; [apply Permutation_refl|].
  destruct (Qle_bool (comparefn x y) 0); [apply Permutation_refl|].
  apply perm_trans with (y :: x :: rest); [|apply perm_swap].
  apply perm_skip, IH.
Qed.

Lemma Array_sort_perm (l : list A) : Permutation (Array_sort comparefn l) l.
Proof.
  induction l as [|x rest IH]; simpl; [constructor|].
  apply perm_trans with (x :: Array_sort comparefn rest).
  - apply sort_insert_perm.
  - apply perm_skip, IH.
Qed.

(** A comparator that never prefers the later element leaves the array in
    its order. *)
Lemma Array_sort_no_preference (l : list A) :
  (forall x y, Qle_bool (comparefn x y) 0 = true) ->
  Array_sort comparefn l = l.
Proof.
  intros Hcmp. induction l as [|x rest IH]; simpl; [reflexivity|].
  rewrite IH. destruct rest as [|y rest']; simpl; [reflexivity|].
  rewrite Hcmp. reflexivity.
Qed.

(** Stability: elements that the comparator does not order strictly keep
    their relative order. *)
Section Stable.
Variable same_key : A -> bool.
Hypothesis same_key_tie :
  forall x y, same_key x = true -> same_key y = true ->
              Qle_bool (comparefn x y) 0 = true.

Lemma sort_insert_stable (x : A) (l : list A) :
  filter same_key (sort_insert comparefn x l) = filter same_key (x :: l).
Proof.
  induction l as [|y rest IH]; [reflexivity|].
  cbn [sort_insert].
  destruct (Qle_bool (comparefn x y) 0) eqn:Hcmp; [reflexivity|].
  cbn [filter] in *. rewrite IH.
  destruct (same_key x) eqn:Hx, (same_key y) eqn:Hy; try reflexivity.
  rewrite (same_key_tie x y Hx Hy) in Hcmp. discriminate Hcmp.
Qed.

Lemma Array_sort_stable (l : list A) :
  filter same_key (Array_sort comparefn l) = filter same_key l.
Proof.
  induction l as [|x rest IH]; [reflexivity|].
  cbn [Array_sort fold_right]. fold (Array_sort comparefn rest).
  rewrite sort_insert_stable. cbn [filter]. rewrite IH. reflexivity.
Qed.
End Stable.

(** Order: for a comparator that decides a total preorder, the result is
    sorted. *)
Section Ordered.
Variable before : A -> A -> Prop.
Hypothesis before_trans : forall x y z, before x y -> before y z -> before x z.
Hypothesis compare_le :
  forall x y, Qle_bool (comparefn x y) 0 = true -> before x y.
Hypothesis compare_gt :
  forall x y, Qle_bool (comparefn x y) 0 = false -> before y x.

Lemma sort_insert_Forall (P : A -> Prop) (x : A) (l : list A) :
  P x -> Forall P l -> Forall P (sort_insert comparefn x l).
Proof.
  intros Hx Hl.
  apply (Permutation_Forall (Permutation_sym (sort_insert_perm x l))).
  constructor; assumption.
Qed.

Lemma sort_insert_sorted (x : A) (l : list A) :
  StronglySorted before l -> StronglySorted before (sort_insert comparefn x l).
Proof.
  induction 1 as [|y rest Hrest IH Hy]; simpl.
  - constructor; constructor.
  - destruct (Qle_bool (comparefn x y) 0) eqn:Hcmp.
    + constructor; [constructor; assumption|].
      constructor; [apply compare_le, Hcmp|].
      apply (Forall_impl (P := before y)); [|exact Hy].
      intros z Hz. apply before_trans with y; [apply compare_le, Hcmp | exact Hz].
    + constructor; [exact IH|].
      apply sort_insert_Forall; [apply compare_gt, Hcmp | exact Hy].
Qed.

Lemma Array_sort_sorted (l : list A) :
  StronglySorted before (Array_sort comparefn l).
Proof.
  induction l as [|x rest IH]; simpl; [constructor|].
  apply sort_insert_sorted, IH.
Qed.
End Ordered.
(** The two requirements of the language on [sort] leave no choice: for a
    consistent comparator (its order is transitive and total), a stable,
    ordered rearrangement of an array is the result of [Array_sort]. *)
Section Determined.
Let prefers (x y : A) : Prop := Qle_bool (comparefn x y) 0 = true.
Let tie (x y : A) : bool :=
  Qle_bool (comparefn x y) 0 && Qle_bool (comparefn y x) 0.
Hypothesis prefers_trans : forall x y z, prefers x y -> prefers y z -> prefers x z.
Hypothesis prefers_total : forall x y, prefers x y \/ prefers y x.

Lemma stable_sorted_unique (l1 l2 : list A) :
  Permutation l1 l2 ->
  StronglySorted prefers l1 -> StronglySorted prefers l2 ->
  (forall x, filter (tie x) l1 = filter (tie x) l2) ->
  l1 = l2.
Proof.
  revert l2. induction l1 as [|a l1 IH]; intros l2 Hperm Hs1 Hs2 Hstable.
  - apply Permutation_nil in Hperm. symmetry. exact Hperm.
  - destruct l2 as [|b l2];
      [apply Permutation_sym, Permutation_nil in Hperm; discriminate Hperm|].
    inversion Hs1 as [|? ? Hs1' Ha]; subst.
    inversion Hs2 as [|? ? Hs2' Hb]; subst.
    assert (prefers a a) as Haa by (destruct (prefers_total a a); assumption).
    assert (prefers a b) as Hab.
    { assert (In b (a :: l1)) as [<- | Hin]
        by (apply (Permutation_in _ (Permutation_sym Hperm)); left; reflexivity).
      - exact Haa.
      - rewrite Forall_forall in Ha. apply Ha, Hin. }
    assert (prefers b a) as Hba.
    { assert (In a (b :: l2)) as [<- | Hin]
        by (apply (Permutation_in _ Hperm); left; reflexivity).
      - exact Haa.
      - rewrite Forall_forall in Hb. apply Hb, Hin. }
    assert (a = b) as <-.
    { pose proof (Hstable a) as Hhead. simpl in Hhead. unfold tie in Hhead.
      unfold prefers in Haa, Hab, Hba. rewrite Haa, Hab, Hba in Hhead.
      simpl in Hhead. injection Hhead as Hhead _. exact Hhead. }
    f_equal. apply IH; try assumption.
    + apply (Permutation_cons_inv Hperm).
    + intros x. pose proof (Hstable x) as Hx. simpl in Hx.
      destruct (tie x a); [injection Hx as Hx|]; exact Hx.
Qed.

Lemma Array_sort_determined (l result : list A) :
  Permutation result l ->
  StronglySorted prefers result ->
  (forall x, filter (tie x) result = filter (tie x) l) ->
  result = Array_sort comparefn l.
Proof.
  intros Hperm Hsorted Hstable. apply stable_sorted_unique.
  - apply perm_trans with l; [exact Hperm | apply Permutation_sym, Array_sort_perm].
  - exact Hsorted.
  - apply Array_sort_sorted.
    + exact prefers_trans.
    + intros x y H. exact H.
    + intros x y H. destruct (prefers_total x y) as [Hxy | Hyx]; [|exact Hyx].
      unfold prefers in Hxy. congruence.
  - intros x. rewrite Hstable. symmetry. apply Array_sort_stable.
    intros y z Hy Hz. unfold tie in Hy, Hz.
    apply andb_true_iff in Hy as [_ Hyx], Hz as [Hxz _].
    exact (prefers_trans y x z Hyx Hxz).
Qed.
End Determined.
End ArraySortFacts.

(** ** The two filters and the comparator *)

Lemma filters_are_visibleb (C : Catalog) (search selected : string) :
  filter (matches_category selected) (filter (matches_search search) C)
  = filter (visibleb search selected) C.
Proof. apply filter_twice. reflexivity. Qed.

Lemma visibleb_spec (search selected : string) (p : Product.t) :
  visibleb search selected p = true <-> visible search selected p.
Proof.
  unfold visibleb, visible, matches_search, matches_category.
  rewrite andb_true_iff, includes_spec, orb_true_iff, !String.eqb_eq.
  split; intros [Hsearch Hcat]; (split; [exact Hsearch|]).
  - intros Hne. destruct Hcat as [Hall | Hsame]; [contradiction | exact Hsame].
  - destruct (String.eqb_spec selected "all") as [Hall | Hne];
      [left; exact Hall | right; apply Hcat, Hne].
Qed.

Lemma compare_low_le (a b : Product.t) :
  Qle_bool (compare_price "low" a b) 0 = true -> price_le a b.
Proof.
  unfold compare_price, price_le. simpl.
  rewrite Qle_bool_iff. intros H. lra.
Qed.

Lemma compare_low_gt (a b : Product.t) :
  Qle_bool (compare_price "low" a b) 0 = false -> price_le b a.
Proof.
  unfold compare_price, price_le. simpl. intros H.
  assert (~ (Product.price a - Product.price b <= 0)%Q) as Hnle
    by (rewrite <- Qle_bool_iff, H; discriminate).
  lra.
Qed.

Lemma compare_high_le (a b : Product.t) :
  Qle_bool (compare_price "high" a b) 0 = true -> price_ge a b.
Proof.
  unfold compare_price, price_ge. simpl.
  rewrite Qle_bool_iff. intros H. lra.
Qed.

Lemma compare_high_gt (a b : Product.t) :
  Qle_bool (compare_price "high" a b) 0 = false -> price_ge b a.
Proof.
  unfold compare_price, price_ge. simpl. intros H.
  assert (~ (Product.price b - Product.price a <= 0)%Q) as Hnle
    by (rewrite <- Qle_bool_iff, H; discriminate).
  lra.
Qed.

(** Two products of the same price are a tie for the comparator, whatever
    the sort order. *)
Lemma compare_price_tie (order : string) (v : Q) (a b : Product.t) :
  Qeq_bool (Product.price a) v = true ->
  Qeq_bool (Product.price b) v = true ->
  Qle_bool (compare_price order a b) 0 = true.
Proof.
  intros Ha Hb. apply Qeq_bool_iff in Ha, Hb.
  apply Qle_bool_iff. unfold compare_price.
  destruct (String.eqb order "low"); [lra|].
  destruct (String.eqb order "high"); lra.
Qed.

Lemma compare_price_none (order : string) (a b : Product.t) :
  order <> "low"%string -> order <> "high"%string ->
  Qle_bool (compare_price order a b) 0 = true.
Proof.
  intros Hlow Hhigh. unfold compare_price.
  apply String.eqb_neq in Hlow, Hhigh. rewrite Hlow, Hhigh. reflexivity.
Qed.

(** The comparator of the view is consistent for every sort order, so the
    view is the one stable, ordered rearrangement of the filtered list. *)
Lemma compare_price_trans (order : string) (x y z : Product.t) :
  Qle_bool (compare_price order x y) 0 = true ->
  Qle_bool (compare_price order y z) 0 = true ->
  Qle_bool (compare_price order x z) 0 = true.
Proof.
  rewrite !Qle_bool_iff. unfold compare_price.
  destruct (String.eqb order "low"); [intros; lra|].
  destruct (String.eqb order "high"); intros; lra.
Qed.

Lemma compare_price_total (order : string) (x y : Product.t) :
  Qle_bool (compare_price order x y) 0 = true \/
  Qle_bool (compare_price order y x) 0 = true.
Proof.
  rewrite !Qle_bool_iff. unfold compare_price.
  destruct (String.eqb order "low");
    [destruct (Qlt_le_dec (Product.price x) (Product.price y)); [left | right]; lra|].
  destruct (String.eqb order "high");
    [destruct (Qlt_le_dec (Product.price x) (Product.price y)); [right | left]; lra|].
  left. lra.
Qed.

Lemma filteredProducts_determined
  (C : Catalog) (search selected order : string) (result : list Product.t) :
  Permutation result (filter (visibleb search selected) C) ->
  StronglySorted
    (fun a b => Qle_bool (compare_price order a b) 0 = true) result ->
  (forall x,
     filter (fun y => Qle_bool (compare_price order x y) 0
                      && Qle_bool (compare_price order y x) 0) result
     = filter (fun y => Qle_bool (compare_price order x y) 0
                        && Qle_bool (compare_price order y x) 0)
         (filter (visibleb search selected) C)) ->
  result = filteredProducts C search selected order.
Proof.
  intros Hperm Hsorted Hstable.
  unfold filteredProducts. rewrite filters_are_visibleb.
  apply Array_sort_determined; try assumption.
  - apply compare_price_trans.
  - apply compare_price_total.
Qed.

(** ** Claims about the catalog view *)

(** C2: for every catalog [C] and filter state (search text, selected
    category, sort order), the products returned are taken from [C]: they
    are the products of a subsequence of [C], each as often as there,
    rearranged by the sort; every returned product is an element of [C],
    its title contains the search text as a substring when both are put in
    lower case, and its category is the selected one unless that is
    ["all"]; for the order ["low"] the result is ordered by price ascending
    and for ["high"] by price descending. *)
Theorem filteredProducts_sound (C : Catalog) (search selected order : string) :
  (exists kept, subsequence kept C /\
                Permutation (filteredProducts C search selected order) kept) /\
  (forall p, In p (filteredProducts C search selected order) ->
             In p C /\ visible search selected p) /\
  (order = "low"%string ->
   StronglySorted price_le (filteredProducts C search selected order)) /\
  (order = "high"%string ->
   StronglySorted price_ge (filteredProducts C search selected order)).
Proof.
  unfold filteredProducts. rewrite filters_are_visibleb.
  split; [|split; [|split]].
  - exists (filter (visibleb search selected) C).
    split; [apply filter_subsequence | apply Array_sort_perm].
  - intros p Hin.
    apply (Permutation_in _ (Array_sort_perm _ _)) in Hin.
    apply filter_In in Hin as [Hin Hvis].
    split; [exact Hin | apply visibleb_spec, Hvis].
  - intros ->. apply Array_sort_sorted.
    + intros x y z. unfold price_le. apply Qle_trans.
    + apply compare_low_le.
    + apply compare_low_gt.
  - intros ->. apply Array_sort_sorted.
    + intros x y z Hxy Hyz. unfold price_ge in *. apply Qle_trans with (Product.price y); assumption.
    + apply compare_high_le.
    + apply compare_high_gt.
Qed.

Lemma filteredProducts_sound_witness :
  StronglySorted price_le (filteredProducts sample_catalog "red" "all" "low") /\
  StronglySorted price_ge (filteredProducts sample_catalog "red" "all" "high") /\
  filteredProducts sample_catalog "red" "all" "low"
  = [red_hat; red_scarf; red_shirt] /\
  filteredProducts sample_catalog "red" "all" "high"
  = [red_shirt; red_hat; red_scarf].
Proof.
  destruct (filteredProducts_sound sample_catalog "red" "all" "low")
    as [_ [_ [Hlow _]]].
  destruct (filteredProducts_sound sample_catalog "red" "all" "high")
    as [_ [_ [_ Hhigh]]].
  split; [apply Hlow; reflexivity|].
  split; [apply Hhigh; reflexivity|].
  split; reflexivity.
Defined.

(** C8: the sort of the view is stable.  For every catalog and filter
    state and every price, the returned products of that price are the
    visible products of that price in the order of the catalog; and when the
    sort order is neither ["low"] nor ["high"] (none), the result is the
    filtered list, which keeps the order of the catalog. *)
Theorem filteredProducts_stable (C : Catalog) (search selected order : string) :
  (forall v : Q,
     with_price v (filteredProducts C search selected order)
     = with_price v (filter (visibleb search selected) C) /\
     subsequence (with_price v (filteredProducts C search selected order)) C) /\
  subsequence (filter (visibleb search selected) C) C /\
  (order <> "low"%string -> order <> "high"%string ->
   filteredProducts C search selected order
   = filter (visibleb search selected) C).
Proof.
  unfold filteredProducts. rewrite filters_are_visibleb.
  assert (forall v,
            with_price v (Array_sort (compare_price order)
                            (filter (visibleb search selected) C))
            = with_price v (filter (visibleb search selected) C)) as Hstable.
  { intros v. unfold with_price. apply Array_sort_stable.
    intros x y. apply compare_price_tie. }
  split; [|split].
  - intros v. split; [apply Hstable|].
    rewrite Hstable. unfold with_price.
    rewrite (filter_twice _ _
               (fun p => visibleb search selected p
                         && Qeq_bool (Product.price p) v))
      by reflexivity.
    apply filter_subsequence.
  - apply filter_subsequence.
  - intros Hlow Hhigh. apply Array_sort_no_preference.
    intros x y. apply compare_price_none; assumption.
Qed.

Lemma filteredProducts_stable_witness :
  filteredProducts sample_catalog "" "all" ""
  = [red_shirt; red_hat; sold_out_mug; red_scarf] /\
  with_price 5 (filteredProducts sample_catalog "" "all" "high")
  = [red_hat; red_scarf].
Proof.
  destruct (filteredProducts_stable sample_catalog "" "all" "") as [_ [_ Hnone]].
  split; [|reflexivity].
  apply Hnone; discriminate.
Defined.

(** ** The category list *)

Lemma Set_add_from (values acc : list string) :
  fold_left Set_add values acc
  = acc ++ filter (fun w => negb (existsb (String.eqb w) acc)) (first_seen values).
Proof.
  revert acc. induction values as [|v rest IH]; intros acc; simpl.
  - rewrite app_nil_r. reflexivity.
  - rewrite IH. unfold Set_add.
    destruct (existsb (String.eqb v) acc) eqn:Hseen; simpl.
    + f_equal. symmetry. apply filter_twice. intros w.
      destruct (String.eqb_spec w v) as [-> | Hne]; simpl.
      * rewrite Hseen. reflexivity.
      * reflexivity.
    + rewrite <- app_assoc. simpl. do 2 f_equal.
      symmetry. apply filter_twice. intros w.
      rewrite existsb_app. simpl. rewrite orb_false_r, negb_orb.
      apply andb_comm.
Qed.

Lemma Set_from_first_seen (values : list string) :
  Set_from values = first_seen values.
Proof.
  unfold Set_from. rewrite Set_add_from. simpl.
  induction (first_seen values) as [|w rest IH]; simpl; [reflexivity|].
  f_equal. exact IH.
Qed.

Lemma first_seen_In (values : list string) (c : string) :
  In c (first_seen values) <-> In c values.
Proof.
  induction values as [|v rest IH]; simpl; [reflexivity|].
  rewrite filter_In, IH, negb_true_iff, String.eqb_neq.
  destruct (String.eqb_spec c v) as [-> | Hne].
  - split; intros _; left; reflexivity.
  - split; intros [Heq | Hin]; try (symmetry in Heq; contradiction).
    + right. apply Hin.
    + right. split; assumption.
Qed.

Lemma first_seen_NoDup (values : list string) : NoDup (first_seen values).
Proof.
  induction values as [|v rest IH]; simpl; constructor.
  - rewrite filter_In, String.eqb_refl. intros [_ H]. discriminate H.
  - apply NoDup_filter, IH.
Qed.

(** The values first seen before the first occurrence of [c] come before
    [c], and nothing else does. *)
Lemma first_seen_prefix (before after : list string) (c : string) :
  ~ In c before ->
  exists rest, first_seen (before ++ c :: after) = first_seen before ++ c :: rest.
Proof.
  intros Hfresh. rewrite <- !Set_from_first_seen. unfold Set_from.
  rewrite fold_left_app. simpl. fold (Set_from before).
  assert (Set_add (Set_from before) c = Set_from before ++ [c]) as ->.
  { unfold Set_add.
    destruct (existsb (String.eqb c) (Set_from before)) eqn:Hseen; [|reflexivity].
    exfalso. apply existsb_exists in Hseen as [w [Hin Hw]].
    apply String.eqb_eq in Hw. subst w.
    rewrite Set_from_first_seen, first_seen_In in Hin.
    contradiction. }
  rewrite Set_add_from, <- app_assoc. simpl. eexists. reflexivity.
Qed.

(** C9: for every catalog, [categories] is the sentinel ["all"] followed
    by the distinct category values of the products, each exactly once, in
    the order of their first occurrence in the catalog: the values after
    the sentinel are exactly the categories of the products, none is
    repeated, and the value at a first occurrence comes right after the
    distinct values seen before it. *)
Theorem categories_first_seen (C : Catalog) :
  exists tail : list string,
    categories C = "all"%string :: tail /\
    tail = first_seen (map Product.category C) /\
    NoDup tail /\
    (forall c, In c tail <-> exists p, In p C /\ Product.category p = c) /\
    (forall before c after,
       map Product.category C = before ++ c :: after -> ~ In c before ->
       exists rest, tail = first_seen before ++ c :: rest).
Proof.
  exists (first_seen (map Product.category C)).
  split; [|split; [|split; [|split]]].
  - unfold categories. rewrite Set_from_first_seen. reflexivity.
  - reflexivity.
  - apply first_seen_NoDup.
  - intros c. rewrite first_seen_In, in_map_iff.
    split; intros [p [H1 H2]]; exists p; split; assumption.
  - intros before c after -> Hfresh. apply first_seen_prefix, Hfresh.
Qed.

Lemma categories_first_seen_witness :
  categories sample_catalog = ["all"; "clothing"; "kitchen"]%string /\
  exists rest,
    first_seen (map Product.category sample_catalog)
    = first_seen ["clothing"; "clothing"]%string ++ "kitchen"%string :: rest.
Proof.
  split; [reflexivity|].
  destruct (categories_first_seen sample_catalog) as [tail [_ [-> [_ [_ Horder]]]]].
  apply (Horder ["clothing"; "clothing"]%string "kitchen"%string ["clothing"%string]).
  - reflexivity.
  - intros [H | [H | []]]; discriminate H.
Defined.

(** * Properties of the cart initializer *)

(** ** Reading never gives text back *)

Lemma skip_ws_length (s : string) :
  (String.length (skip_ws s) <= String.length s)%nat.
Proof.
  induction s as [|c rest IH]; simpl; [lia|].
  destruct (is_ws c); simpl; lia.
Qed.

Lemma strip_prefix_length (lit s rest : string) :
  strip_prefix lit s = Some rest ->
  (String.length rest <= String.length s)%nat.
Proof.
  revert s. induction lit as [|a lit IH]; intros s; simpl.
  - intros [= ->]. lia.
  - destruct s as [|b s']; [discriminate|].
    destruct (Ascii.eqb a b); [|discriminate].
    intros H. apply IH in H. simpl. lia.
Qed.

Lemma read_literal_length (lit : string) (v w : json) (s rest : string) :
  read_literal lit v s = Parsed w rest ->
  (String.length rest <= String.length s)%nat.
Proof.
  unfold read_literal.
  destruct (strip_prefix lit s) as [r|] eqn:Hstrip; [|discriminate].
  intros [= _ <-]. apply (strip_prefix_length _ _ _ Hstrip).
Qed.

Lemma parsed_map_Parsed {A B : Type} (f : A -> B) (p : parsed A) w rest :
  parsed_map f p = Parsed w rest -> exists v, p = Parsed v rest.
Proof.
  destruct p as [v r| |]; simpl; try discriminate.
  intros [= _ <-]. exists v. reflexivity.
Qed.

Lemma parsed_map_fuel {A B : Type} (f : A -> B) (p : parsed A) :
  p <> OutOfFuel -> parsed_map f p <> OutOfFuel.
Proof.
  destruct p; simpl; intros H; try discriminate.
  exfalso. apply H. reflexivity.
Qed.

Lemma read_string_length (s : string) :
  forall v rest, read_string s = Parsed v rest ->
                 (String.length rest <= String.length s)%nat.
Proof.
  induction s as [s IH] using (well_founded_induction
                                 (Wf_nat.well_founded_ltof _ String.length)).
  unfold Wf_nat.ltof in IH.
  intros v rest. destruct s as [|c s1]; simpl; [discriminate|].
  destruct (Ascii.eqb c double_quote); [intros [= _ <-]; lia|].
  destruct (Ascii.eqb c "\").
  - destruct s1 as [|e s2]; [discriminate|].
    destruct (Ascii.eqb e "u").
    + destruct s2 as [|h1 [|h2 [|h3 [|h4 s3]]]]; try discriminate.
      destruct (hex4 h1 h2 h3 h4); [|discriminate].
      intros H. apply parsed_map_Parsed in H as [w H].
      apply IH in H; simpl in *; lia.
    + destruct (unescape e); [|discriminate].
      intros H. apply parsed_map_Parsed in H as [w H].
      apply IH in H; simpl in *; lia.
  - destruct (nat_of_ascii c <? 32)%nat; [discriminate|].
    intros H. apply parsed_map_Parsed in H as [w H].
    apply IH in H; simpl in *; lia.
Qed.

Lemma read_string_fuel (s : string) : read_string s <> OutOfFuel.
Proof.
  induction s as [s IH] using (well_founded_induction
                                 (Wf_nat.well_founded_ltof _ String.length)).
  unfold Wf_nat.ltof in IH.
  destruct s as [|c s1]; simpl; [discriminate|].
  destruct (Ascii.eqb c double_quote); [discriminate|].
  destruct (Ascii.eqb c "\").
  - destruct s1 as [|e s2]; [discriminate|].
    destruct (Ascii.eqb e "u").
    + destruct s2 as [|h1 [|h2 [|h3 [|h4 s3]]]]; try discriminate.
      destruct (hex4 h1 h2 h3 h4); [|discriminate].
      apply parsed_map_fuel, IH. simpl. lia.
    + destruct (unescape e); [|discriminate].
      apply parsed_map_fuel, IH. simpl. lia.
  - destruct (nat_of_ascii c <? 32)%nat; [discriminate|].
    apply parsed_map_fuel, IH. simpl. lia.
Qed.

Lemma read_digits_length (s : string) :
  forall acc count n k rest,
    read_digits s acc count = (n, k, rest) ->
    (String.length rest <= String.length s)%nat.
Proof.
  induction s as [|c s' IH]; intros acc count n k rest; simpl.
  - intros [= _ _ <-]. simpl. lia.
  - destruct (digit_value c).
    + intros H. apply IH in H. lia.
    + intros [= _ _ <-]. simpl. lia.
Qed.

Lemma read_int_length (s rest : string) (n : Z) :
  read_int s = Some (n, rest) -> (String.length rest <= String.length s)%nat.
Proof.
  unfold read_int. destruct s as [|c s']; [discriminate|].
  destruct (digit_value c) as [d|]; [|discriminate].
  destruct (d =? 0).
  - intros [= _ <-]. simpl. lia.
  - destruct (read_digits s' d 1) as [[m k] r] eqn:Hdigits.
    intros [= _ <-]. apply read_digits_length in Hdigits. simpl. lia.
Qed.

Lemma read_fraction_length (s rest : string) (f : Z) (k : nat) :
  read_fraction s = Some (f, k, rest) ->
  (String.length rest <= String.length s)%nat.
Proof.
  unfold read_fraction. destruct s as [|c s']; [intros [= _ _ <-]; lia|].
  destruct (Ascii.eqb c ".").
  - destruct (read_digits s' 0 0) as [[m [|j]] r] eqn:Hdigits; [discriminate|].
    intros [= _ _ <-]. apply read_digits_length in Hdigits. simpl. lia.
  - intros [= _ _ <-]. lia.
Qed.

Lemma read_exponent_length (s rest : string) (e : Z) :
  read_exponent s = Some (e, rest) ->
  (String.length rest <= String.length s)%nat.
Proof.
  unfold read_exponent. destruct s as [|c s']; [intros [= _ <-]; lia|].
  destruct (Ascii.eqb c "e" || Ascii.eqb c "E"); [|intros [= _ <-]; lia].
  destruct (match s' with
            | EmptyString => (false, s')
            | String sign rest' =>
                if Ascii.eqb sign "-" then (true, rest')
                else if Ascii.eqb sign "+" then (false, rest')
                else (false, s')
            end) as [negative digits] eqn:Hsign.
  assert (String.length digits <= String.length s')%nat as Hlen.
  { destruct s' as [|sign s'']; [injection Hsign as _ <-; lia|].
    destruct (Ascii.eqb sign "-"); [injection Hsign as _ <-; simpl; lia|].
    destruct (Ascii.eqb sign "+"); injection Hsign as _ <-; simpl; lia. }
  destruct (read_digits digits 0 0) as [[m [|j]] r] eqn:Hread; [discriminate|].
  intros [= _ <-]. apply read_digits_length in Hread. simpl. lia.
Qed.

Lemma read_number_length (s rest : string) (q : Q) :
  read_number s = Parsed q rest ->
  (String.length rest <= String.length s)%nat.
Proof.
  unfold read_number.
  destruct (match s with
            | EmptyString => (false, s)
            | String c rest => if Ascii.eqb c "-" then (true, rest) else (false, s)
            end) as [negative digits] eqn:Hsign.
  assert (String.length digits <= String.length s)%nat as Hlen.
  { destruct s as [|c s']; [injection Hsign as _ <-; lia|].
    destruct (Ascii.eqb c "-"); injection Hsign as _ <-; simpl; lia. }
  destruct (read_int digits) as [[int s1]|] eqn:Hint; [|discriminate].
  destruct (read_fraction s1) as [[[frac places] s2]|] eqn:Hfrac; [|discriminate].
  destruct (read_exponent s2) as [[e s3]|] eqn:Hexp; [|discriminate].
  intros [= _ <-].
  apply read_int_length in Hint. apply read_fraction_length in Hfrac.
  apply read_exponent_length in Hexp. lia.
Qed.

Lemma read_number_fuel (s : string) : read_number s <> OutOfFuel.
Proof.
  unfold read_number.
  destruct (match s with
            | EmptyString => (false, s)
            | String c rest => if Ascii.eqb c "-" then (true, rest) else (false, s)
            end) as [negative digits].
  destruct (read_int digits) as [[int s1]|]; [|discriminate].
  destruct (read_fraction s1) as [[[frac places] s2]|]; [|discriminate].
  destruct (read_exponent s2) as [[e s3]|]; discriminate.
Qed.

Lemma read_literal_fuel (lit : string) (v : json) (s : string) :
  read_literal lit v s <> OutOfFuel.
Proof. unfold read_literal. destruct (strip_prefix lit s); discriminate. Qed.

(** ** The value reader returns a suffix and has fuel enough *)

Ltac length_facts :=
  repeat match goal with
    | E : skip_ws ?s = _ |- _ =>
        let H := fresh "Hlen" in
        pose proof (skip_ws_length s) as H; rewrite E in H; clear E
    | E : read_string _ = Parsed _ _ |- _ => apply read_string_length in E
    | E : parsed_map _ _ = Parsed _ _ |- _ =>
        let w := fresh "w" in apply parsed_map_Parsed in E as [w E]
    | E : read_number _ = Parsed _ _ |- _ => apply read_number_length in E
    | E : read_literal _ _ _ = Parsed _ _ |- _ => apply read_literal_length in E
    end.

Ltac split_match H :=
  repeat match type of H with
    | context [match ?x with _ => _ end] => destruct x eqn:?; try discriminate H
    | context [if ?x then _ else _] => destruct x eqn:?; try discriminate H
    end.

Lemma read_rest_length (fuel : nat) :
  (forall s v rest, read_value fuel s = Parsed v rest ->
                    (String.length rest <= String.length s)%nat) /\
  (forall s acc v rest, read_elements fuel s acc = Parsed v rest ->
                        (String.length rest <= String.length s)%nat) /\
  (forall s acc v rest, read_members fuel s acc = Parsed v rest ->
                        (String.length rest <= String.length s)%nat).
Proof.
  induction fuel as [|fuel [IHvalue [IHelements IHmembers]]].
  - repeat split; intros; discriminate.
  - split; [|split].
    + intros s v rest H. simpl in H.
      split_match H.
      all: try (injection H as _ <-).
      all: try apply IHmembers in H.
      all: try apply IHelements in H.
      all: length_facts; simpl in *; try lia.
    + intros s acc v rest H. simpl in H.
      split_match H.
      all: try (injection H as _ <-).
      all: try apply IHelements in H.
      all: repeat match goal with
             | E : read_value _ _ = Parsed _ _ |- _ => apply IHvalue in E
             end.
      all: length_facts; simpl in *; try lia.
    + intros s acc v rest H. simpl in H.
      split_match H.
      all: try (injection H as _ <-).
      all: try apply IHmembers in H.
      all: repeat match goal with
             | E : read_value _ _ = Parsed _ _ |- _ => apply IHvalue in E
             end.
      all: length_facts; simpl in *; try lia.
Qed.

Ltac fuel_facts :=
  repeat match goal with
    | E : skip_ws ?s = _ |- _ =>
        let H := fresh "Hlen" in
        pose proof (skip_ws_length s) as H; rewrite E in H; clear E
    | E : read_string _ = Parsed _ _ |- _ => apply read_string_length in E
    | E : read_value _ _ = Parsed _ _ |- _ =>
        apply (proj1 (read_rest_length _)) in E
    end.

Lemma read_enough_fuel (fuel : nat) :
  (forall s, (2 * String.length s + 1 <= fuel)%nat ->
             read_value fuel s <> OutOfFuel) /\
  (forall s acc, (2 * String.length s + 2 <= fuel)%nat ->
                 read_elements fuel s acc <> OutOfFuel) /\
  (forall s acc, (2 * String.length s + 2 <= fuel)%nat ->
                 read_members fuel s acc <> OutOfFuel).
Proof.
  induction fuel as [|fuel [IHvalue [IHelements IHmembers]]].
  - repeat split; intros; lia.
  - split; [|split].
    + intros s Hfuel H. simpl in H.
      split_match H.
      all: try (apply IHmembers in H; [exact H|]).
      all: try (apply IHelements in H; [exact H|]).
      all: try (apply parsed_map_fuel in H; [exact H|]).
      all: try (apply read_literal_fuel in H; exact H).
      all: try apply read_string_fuel.
      all: try apply read_number_fuel.
      all: fuel_facts; simpl in *; try lia.
    + intros s acc Hfuel H. simpl in H.
      split_match H.
      all: try (apply IHelements in H; [exact H|]).
      all: try match goal with
             | E : read_value _ _ = OutOfFuel |- _ =>
                 apply IHvalue in E; [exact E|]
             end.
      all: fuel_facts; simpl in *; try lia.
    + intros s acc Hfuel H. simpl in H.
      split_match H.
      all: try (apply IHmembers in H; [exact H|]).
      all: try match goal with
             | E : read_value _ _ = OutOfFuel |- _ =>
                 apply IHvalue in E; [exact E|]
             | E : read_string _ = OutOfFuel |- _ =>
                 apply read_string_fuel in E; exact E
             end.
      all: fuel_facts; simpl in *; try lia.
Qed.

(** More fuel does not change what was read. *)
Lemma read_more_fuel (fuel : nat) :
  (forall s extra, read_value fuel s <> OutOfFuel ->
                   read_value (fuel + extra) s = read_value fuel s) /\
  (forall s acc extra, read_elements fuel s acc <> OutOfFuel ->
                       read_elements (fuel + extra) s acc = read_elements fuel s acc) /\
  (forall s acc extra, read_members fuel s acc <> OutOfFuel ->
                       read_members (fuel + extra) s acc = read_members fuel s acc).
Proof.
  induction fuel as [|fuel [IHvalue [IHelements IHmembers]]].
  - repeat split; intros; exfalso; auto.
  - split; [|split].
    + intros s extra H. simpl in *.
      repeat match goal with
        | |- context [match ?x with _ => _ end] => destruct x eqn:?
        | |- context [if ?x then _ else _] => destruct x eqn:?
        end; auto.
    + intros s acc extra H. simpl in *.
      destruct (read_value fuel s) as [v rest| |] eqn:Hvalue;
        [|rewrite IHvalue, Hvalue by (rewrite Hvalue; discriminate); reflexivity
         |exfalso; auto].
      rewrite IHvalue, Hvalue by (rewrite Hvalue; discriminate).
      repeat match goal with
        | |- context [match ?x with _ => _ end] => destruct x eqn:?
        | |- context [if ?x then _ else _] => destruct x eqn:?
        end; auto.
    + intros s acc extra H. simpl in *.
      repeat match goal with
        | |- context [match skip_ws ?x with _ => _ end] => destruct (skip_ws x) eqn:?
        | |- context [match read_string ?x with _ => _ end] => destruct (read_string x) eqn:?
        | |- context [if ?x then _ else _] => destruct x eqn:?
        end; auto.
      match goal with
      | |- context [read_value fuel ?x] =>
          destruct (read_value fuel x) as [v rest| |] eqn:Hvalue;
          [|rewrite IHvalue, Hvalue by (rewrite Hvalue; discriminate); reflexivity
           |exfalso; auto]
      end.
      rewrite IHvalue, Hvalue by (rewrite Hvalue; discriminate).
      repeat match goal with
        | |- context [match ?x with _ => _ end] => destruct x eqn:?
        | |- context [if ?x then _ else _] => destruct x eqn:?
        end; auto.
Qed.

(** [JSON_parse] never stops for want of fuel: a text that does not parse
    has a syntax error. *)
Lemma JSON_parse_enough_fuel (text : string) :
  read_value (2 * String.length text + 1) text <> OutOfFuel.
Proof. apply (proj1 (read_enough_fuel _)). lia. Qed.

Lemma JSON_parse_Return (text : string) (v : json) :
  JSON_parse text = Return v <->
  exists rest,
    read_value (2 * String.length text + 1) text = Parsed v rest /\
    skip_ws rest = EmptyString.
Proof.
  unfold JSON_parse.
  destruct (read_value _ text) as [w rest| |]; split;
    try discriminate; try (intros [r [H _]]; discriminate H).
  - destruct (skip_ws rest) eqn:Hws; [|discriminate].
    intros [= ->]. exists rest. split; [reflexivity | exact Hws].
  - intros [r [[= -> ->] Hws]]. rewrite Hws. reflexivity.
Qed.

(** The verdict of [JSON_parse] does not depend on the counter: a text
    that some amount of fuel reads as one value is returned with that value,
    so a text for which [JSON_parse] throws is read as one value by no
    amount of fuel. *)
Lemma JSON_parse_any_fuel (text : string) (fuel : nat) (v : json) (rest : string) :
  read_value fuel text = Parsed v rest -> skip_ws rest = EmptyString ->
  JSON_parse text = Return v.
Proof.
  intros Hread Hws. apply JSON_parse_Return. exists rest. split; [|exact Hws].
  pose proof (proj1 (read_more_fuel fuel) text (2 * String.length text + 1)%nat) as Hup.
  pose proof (proj1 (read_more_fuel (2 * String.length text + 1)%nat) text fuel
                (JSON_parse_enough_fuel text)) as Hdown.
  rewrite Hread in Hup.
  rewrite <- Hdown, Nat.add_comm. apply Hup. discriminate.
Qed.

(** ** Sample stored values *)

Lemma stored_cart_parses :
  JSON_parse (with_quotes
    "[{'id':1,'title':'Red Shirt','category':'clothing','price':10,'stock':2,'thumbnail':'shirt.png','quantity':2}]")
  = Return (json_of_cart [shirt_line 2]).
Proof. reflexivity. Qed.

Lemma stored_non_cart_parses :
  JSON_parse (with_quotes " { 'a' : [1.5e1, true, null], 'b' : -0.25, 'a' : 'x\u0041\n' } ")
  = Return (JObject [("a"%string, JString (String "x" (String "A" (String "010" EmptyString))));
                     ("b"%string, JNumber (-25 # 100))]).
Proof. reflexivity. Qed.

Lemma stored_garbage_does_not_parse :
  JSON_parse "undefined" = Throw SyntaxError_exn /\
  JSON_parse (with_quotes "[{'id':1,}]") = Throw SyntaxError_exn /\
  JSON_parse (with_quotes "{'id':01}") = Throw SyntaxError_exn /\
  JSON_parse "[1] 2" = Throw SyntaxError_exn.
Proof. repeat split. Qed.

(** ** Claim about the cart initializer *)

(** C6, as the claim states it, fails: for a stored value that is not
    JSON, [JSON.parse] throws a [SyntaxError] inside the initializer, and
    nothing catches it; the cart is not set to the empty cart. *)
Lemma initial_cart_malformed_throws :
  read_value (2 * String.length "{oops" + 1) "{oops" = SyntaxError /\
  initial_cart (Some "{oops"%string) = Throw SyntaxError_exn /\
  initial_cart (Some "{oops"%string) <> Return (json_of_cart []).
Proof.
  split; [reflexivity|]. split; [reflexivity|].
  intros H. discriminate H.
Qed.

(** C6 (amended): at startup, for every possible stored value under the
    key, the initializer has one well-defined outcome: a missing key, and
    an empty stored string, yield the empty cart; a stored text that is
    valid JSON yields the value it denotes, without failure; a malformed
    stored text makes the initializer throw the [SyntaxError] of
    [JSON.parse], it does not yield the empty cart. *)
Theorem initial_cart_cases (saved : stored) :
  (saved = None \/ saved = Some EmptyString ->
   initial_cart saved = Return (json_of_cart [])) /\
  (forall text v,
     saved = Some text -> JSON_parse text = Return v ->
     initial_cart saved = Return v) /\
  (forall text,
     saved = Some text -> text <> EmptyString ->
     JSON_parse text = Throw SyntaxError_exn ->
     initial_cart saved = Throw SyntaxError_exn /\
     initial_cart saved <> Return (json_of_cart [])) /\
  ((exists v, initial_cart saved = Return v) \/
   initial_cart saved = Throw SyntaxError_exn).
Proof.
  split; [|split; [|split]].
  - intros [-> | ->]; reflexivity.
  - intros text v -> Hparse.
    destruct text as [|c rest]; [discriminate Hparse | exact Hparse].
  - intros text -> Hne Hparse.
    destruct text as [|c rest]; [contradiction|].
    simpl. rewrite Hparse. split; [reflexivity | discriminate].
  - destruct (initial_cart saved) as [v | []]; [left; exists v|right]; reflexivity.
Qed.

Lemma initial_cart_cases_witness :
  initial_cart None = Return (json_of_cart []) /\
  initial_cart (Some "[]"%string) = Return (json_of_cart []) /\
  initial_cart (Some "[1,"%string) = Throw SyntaxError_exn.
Proof.
  split; [|split].
  - destruct (initial_cart_cases None) as [Habsent _].
    apply Habsent. left. reflexivity.
  - destruct (initial_cart_cases (Some "[]"%string)) as [_ [Hvalid _]].
    apply (Hvalid "[]"%string); reflexivity.
  - destruct (initial_cart_cases (Some "[1,"%string)) as [_ [_ [Hmalformed _]]].
    apply (Hmalformed "[1,"%string); [reflexivity | discriminate | reflexivity].
Defined.

(** * The interface and the cart *)

(** ** Lines and products are found by their id *)

Lemma unique_product (products : Catalog) (a b : Product.t) :
  NoDup (map Product.id products) ->
  In a products -> In b products -> Product.id a = Product.id b -> a = b.
Proof.
  induction products as [|p rest IH]; simpl; intros Hnd Ha Hb Heq; [contradiction|].
  inversion Hnd as [|? ? Hfresh Hrest]; subst.
  destruct Ha as [Ha | Ha], Hb as [Hb | Hb]; subst.
  - reflexivity.
  - exfalso. apply Hfresh. rewrite Heq. apply in_map, Hb.
  - exfalso. apply Hfresh. rewrite <- Heq. apply in_map, Ha.
  - apply IH; assumption.
Qed.

(** A line of the cart after [addToCart] is a line of the cart before, up
    to its quantity, or the new line. *)
Lemma addToCart_lines (P : Product.t) (K : Cart) (item : CartItem.t) :
  In item (addToCart P K) ->
  (exists line, In line K /\ CartItem.id item = CartItem.id line /\
                CartItem.stock item = CartItem.stock line) \/
  item = spread_product P 1.
Proof.
  unfold addToCart.
  destruct (find _ K) as [existing|].
  - destruct (_ <? _).
    + intros Hin. apply in_map_iff in Hin as [line [<- Hin]].
      left. exists line. split; [exact Hin|].
      unfold increment_line. destruct (_ =? _); split; reflexivity.
    + intros Hin. left. exists item. repeat split. exact Hin.
  - intros Hin. apply in_app_or in Hin as [Hin | [<- | []]].
    + left. exists item. repeat split. exact Hin.
    + right. reflexivity.
Qed.

Lemma updateQuantity_lines (id q maxStock : Z) (K : Cart) (item : CartItem.t) :
  In item (updateQuantity id q maxStock K) ->
  exists line, In line K /\ CartItem.id item = CartItem.id line /\
               CartItem.stock item = CartItem.stock line.
Proof.
  unfold updateQuantity. destruct (_ || _).
  - intros Hin. exists item. repeat split. exact Hin.
  - intros Hin. apply in_map_iff in Hin as [line [<- Hin]].
    exists line. split; [exact Hin|].
    split; [apply set_line_id | apply set_line_stock].
Qed.

Lemma stocks_agree_lines (products : Catalog) (K K' : Cart) :
  stocks_agree products K ->
  (forall item, In item K' ->
     exists line, In line K /\ CartItem.id item = CartItem.id line /\
                  CartItem.stock item = CartItem.stock line) ->
  stocks_agree products K'.
Proof.
  intros Hagree Hlines item product Hin Hp Hid.
  destruct (Hlines item Hin) as [line [Hline [Hlid Hlstock]]].
  rewrite Hlstock. apply (Hagree line product); congruence.
Qed.

(** ** One click keeps the cart within stock *)

Lemma ProductCard_click_inv (products : Catalog) (product : Product.t) (cart : Cart) :
  NoDup (map Product.id products) -> In product products ->
  cart_inv cart -> stocks_agree products cart ->
  cart_inv (ProductCard_click product cart) /\
  stocks_agree products (ProductCard_click product cart).
Proof.
  intros Hnd Hp Hinv Hagree. unfold ProductCard_click, isOutOfStock.
  destruct (Z.leb_spec (Product.stock product) 0) as [Hout | Hin];
    [split; assumption|].
  split.
  - apply addToCart_inv; [exact Hinv | intros _; lia|].
    intros existing Hfind. apply find_line_some in Hfind as [Hex Hid].
    rewrite (Hagree existing product Hex Hp Hid). lia.
  - intros item other Hitem Hother Hid.
    destruct (addToCart_lines _ _ _ Hitem) as [[line [Hline [Hlid Hlstock]]] | ->].
    + rewrite Hlstock. apply (Hagree line other); congruence.
    + simpl in *. f_equal. apply (unique_product products); assumption.
Qed.

Lemma CartItem_update_inv (products : Catalog) (item : CartItem.t) (q : Z) (cart : Cart) :
  In item cart -> cart_inv cart -> stocks_agree products cart ->
  cart_inv (updateQuantity (CartItem.id item) q (CartItem.stock item) cart) /\
  stocks_agree products
    (updateQuantity (CartItem.id item) q (CartItem.stock item) cart).
Proof.
  intros Hin Hinv Hagree. split.
  - apply updateQuantity_inv; [exact Hinv|].
    intros line Hline Hid.
    rewrite (unique_line cart line item (proj1 Hinv) Hline Hin Hid). lia.
  - apply (stocks_agree_lines products cart); [exact Hagree|].
    intros line. apply updateQuantity_lines.
Qed.

Lemma click_inv (products : Catalog) (cart cart' : Cart) :
  NoDup (map Product.id products) ->
  cart_inv cart -> stocks_agree products cart ->
  click products cart cart' ->
  cart_inv cart' /\ stocks_agree products cart'.
Proof.
  intros Hnd Hinv Hagree Hclick.
  destruct Hclick as [product Hp | item Hin | item Hin | item Hin].
  - apply ProductCard_click_inv; assumption.
  - unfold CartItem_minus. destruct (minus_disabled item); [split; assumption|].
    apply CartItem_update_inv; assumption.
  - unfold CartItem_plus. destruct (plus_disabled item); [split; assumption|].
    apply CartItem_update_inv; assumption.
  - unfold CartItem_remove. split; [apply removeFromCart_inv, Hinv|].
    apply (stocks_agree_lines products cart); [exact Hagree|].
    intros line Hline. apply filter_In in Hline as [Hline _].
    exists line. repeat split. exact Hline.
Qed.

(** X1: in a session over a catalog with distinct product ids, every cart
    reached by clicks (Add to Cart on a product card, [-], [+] and Remove on
    a cart item) from a cart that satisfies the cart invariant and whose
    lines carry the stocks of the catalog, the empty cart in particular,
    satisfies the cart invariant again: distinct ids, every quantity
    between 1 and the stock of the line. *)
Theorem session_keeps_cart_within_stock (products : Catalog) (start cart : Cart) :
  NoDup (map Product.id products) ->
  cart_inv start -> stocks_agree products start ->
  session products start cart ->
  cart_inv cart /\ stocks_agree products cart.
Proof.
  intros Hnd Hinv Hagree Hsession.
  induction Hsession as [|mid final Hsession IH Hclick]; [split; assumption|].
  destruct IH as [Hmid Hmidagree].
  apply (click_inv products mid); assumption.
Qed.

Lemma session_keeps_cart_within_stock_witness :
  cart_inv (ProductCard_click sold_out_mug
              (CartItem_plus (shirt_line 1) (ProductCard_click red_shirt []))) /\
  ProductCard_click sold_out_mug
    (CartItem_plus (shirt_line 1) (ProductCard_click red_shirt []))
  = [shirt_line 2].
Proof.
  split; [|reflexivity].
  apply (session_keeps_cart_within_stock sample_catalog []).
  - apply distinct_ids_NoDup. reflexivity.
  - apply cart_invb_spec. reflexivity.
  - intros item product [].
  - apply session_click with (mid := CartItem_plus (shirt_line 1) (ProductCard_click red_shirt [])).
    + apply session_click with (mid := ProductCard_click red_shirt []).
      * apply session_click with (mid := []); [apply session_start|].
        apply click_add. left. reflexivity.
      * apply click_plus. left. reflexivity.
    + apply click_add. right. right. left. reflexivity.
Defined.

(** ** Totals of carts put together *)

Lemma totalItems_sum (K : Cart) : totalItems K = sum_quantities K.
Proof. unfold totalItems. rewrite totalItems_from. lia. Qed.

Lemma sum_quantities_app (K L : Cart) :
  sum_quantities (K ++ L) = sum_quantities K + sum_quantities L.
Proof. induction K as [|item rest IH]; simpl; lia. Qed.

Lemma totalItems_split (before after : Cart) (line : CartItem.t) :
  totalItems (before ++ line :: after)
  = totalItems before + CartItem.quantity line + totalItems after.
Proof.
  rewrite !totalItems_sum, sum_quantities_app. simpl. lia.
Qed.

(** A cart with distinct ids and a line [line]: [set_line] and
    [increment_line] at its id change that line, in place. *)
Lemma set_line_in_place (before after : Cart) (line : CartItem.t) (q : Z) :
  NoDup (map CartItem.id (before ++ line :: after)) ->
  map (set_line (CartItem.id line) q) (before ++ line :: after)
  = before ++ spread_item line q :: after.
Proof.
  intros Hnd.
  rewrite (map_single_line _ (CartItem.id line));
    [| apply set_line_other | reflexivity | exact Hnd].
  unfold set_line. rewrite Z.eqb_refl. reflexivity.
Qed.

Lemma increment_line_in_place (before after : Cart) (line : CartItem.t) :
  NoDup (map CartItem.id (before ++ line :: after)) ->
  map (increment_line (CartItem.id line)) (before ++ line :: after)
  = before ++ spread_item line (CartItem.quantity line + 1) :: after.
Proof.
  intros Hnd.
  rewrite (map_single_line _ (CartItem.id line));
    [| apply increment_line_other | reflexivity | exact Hnd].
  unfold increment_line. rewrite Z.eqb_refl. reflexivity.
Qed.

Lemma removeFromCart_in_place (before after : Cart) (line : CartItem.t) :
  NoDup (map CartItem.id (before ++ line :: after)) ->
  removeFromCart (CartItem.id line) (before ++ line :: after) = before ++ after.
Proof.
  intros Hnd. rewrite map_app in Hnd. simpl in Hnd.
  pose proof (NoDup_remove_2 _ _ _ Hnd) as Hfresh.
  assert (forall L : Cart,
            (forall item, In item L -> In (CartItem.id item) (map CartItem.id L)) ->
            ~ In (CartItem.id line) (map CartItem.id L) ->
            removeFromCart (CartItem.id line) L = L) as Hkeep.
  { intros L _ HL. unfold removeFromCart. induction L as [|item rest IH]; [reflexivity|].
    simpl in *. destruct (Z.eqb_spec (CartItem.id item) (CartItem.id line)) as [Heq | Hne].
    - exfalso. apply HL. left. exact Heq.
    - simpl. f_equal. apply IH. intros Hin. apply HL. right. exact Hin. }
  unfold removeFromCart. rewrite filter_app. simpl. rewrite Z.eqb_refl. simpl.
  fold (removeFromCart (CartItem.id line) before).
  fold (removeFromCart (CartItem.id line) after).
  rewrite !Hkeep; try reflexivity; try (intros item; apply in_map).
  - intros Hin. apply Hfresh, in_or_app. right. exact Hin.
  - intros Hin. apply Hfresh, in_or_app. left. exact Hin.
Qed.

Lemma spread_item_same (item : CartItem.t) (q : Z) :
  q = CartItem.quantity item -> spread_item item q = item.
Proof. intros ->. destruct item. reflexivity. Qed.

(** X2: for a cart with distinct ids and a line of it, an accepted click
    on [+] followed by a click on [-] of the same item gives the cart back,
    and so does [-] followed by [+]. *)
Theorem plus_and_minus_undo_each_other (cart : Cart) (item : CartItem.t) :
  NoDup (map CartItem.id cart) -> In item cart ->
  (1 <= CartItem.quantity item < CartItem.stock item ->
   In (spread_item item (CartItem.quantity item + 1)) (CartItem_plus item cart) /\
   CartItem_minus (spread_item item (CartItem.quantity item + 1))
     (CartItem_plus item cart) = cart) /\
  (1 < CartItem.quantity item <= CartItem.stock item ->
   In (spread_item item (CartItem.quantity item - 1)) (CartItem_minus item cart) /\
   CartItem_plus (spread_item item (CartItem.quantity item - 1))
     (CartItem_minus item cart) = cart).
Proof.
  intros Hnd Hin.
  destruct (in_split _ _ Hin) as [before [after ->]].
  assert (forall q,
            NoDup (map CartItem.id (before ++ spread_item item q :: after)))
    as Hnd' by (intros q; rewrite map_app in *; exact Hnd).
  assert (forall q q', 1 <= q <= CartItem.stock item ->
            updateQuantity (CartItem.id item) q (CartItem.stock item)
              (before ++ spread_item item q' :: after)
            = before ++ spread_item item q :: after) as Hset.
  { intros q q' Hq. unfold updateQuantity.
    destruct (Z.ltb_spec q 1); [lia|]. rewrite Z.gtb_ltb.
    destruct (Z.ltb_spec (CartItem.stock item) q); [lia|]. simpl.
    apply (set_line_in_place before after (spread_item item q') q), Hnd'. }
  assert (before ++ item :: after
          = before ++ spread_item item (CartItem.quantity item) :: after) as Hsame
    by (rewrite spread_item_same; reflexivity).
  split; intros Hq.
  - unfold CartItem_plus, CartItem_minus, plus_disabled, minus_disabled.
    rewrite Z.geb_leb. simpl.
    destruct (Z.leb_spec (CartItem.stock item) (CartItem.quantity item)); [lia|].
    destruct (Z.leb_spec (CartItem.quantity item + 1) 1); [lia|].
    rewrite Hsame at 1 2. rewrite Hset by lia. split.
    + apply in_or_app. right. left. reflexivity.
    + rewrite (Hset (CartItem.quantity item + 1 - 1)) by lia.
      rewrite Hsame. repeat f_equal. lia.
  - unfold CartItem_plus, CartItem_minus, plus_disabled, minus_disabled.
    rewrite Z.geb_leb. simpl.
    destruct (Z.leb_spec (CartItem.quantity item) 1); [lia|].
    destruct (Z.leb_spec (CartItem.stock item) (CartItem.quantity item - 1)); [lia|].
    rewrite Hsame at 1 2. rewrite Hset by lia. split.
    + apply in_or_app. right. left. reflexivity.
    + rewrite (Hset (CartItem.quantity item - 1 + 1)) by lia.
      rewrite Hsame. repeat f_equal. lia.
Qed.

Lemma plus_and_minus_undo_each_other_witness :
  CartItem_minus (shirt_line 2) (CartItem_plus (shirt_line 1) [shirt_line 1])
  = [shirt_line 1] /\
  CartItem_plus (shirt_line 1) (CartItem_minus (shirt_line 2) [shirt_line 2])
  = [shirt_line 2].
Proof.
  split.
  - destruct (plus_and_minus_undo_each_other [shirt_line 1] (shirt_line 1))
      as [Hplus _].
    + apply distinct_ids_NoDup. reflexivity.
    + left. reflexivity.
    + apply Hplus. simpl. lia.
  - destruct (plus_and_minus_undo_each_other [shirt_line 2] (shirt_line 2))
      as [_ Hminus].
    + apply distinct_ids_NoDup. reflexivity.
    + left. reflexivity.
    + apply Hminus. simpl. lia.
Defined.

(** X3: in a cart with distinct ids, an accepted [addToCart] adds exactly
    one unit: the number of items grows by 1, and for a new line the total
    price becomes the total plus the price of the product times 1, as
    JavaScript numbers; a refused [addToCart] leaves both totals as they
    were. *)
Theorem addToCart_adds_one_unit (P : Product.t) (K : Cart) :
  NoDup (map CartItem.id K) ->
  (find (fun item => CartItem.id item =? Product.id P) K = None ->
   totalItems (addToCart P K) = totalItems K + 1 /\
   totalPrice (addToCart P K)
   = double_add (totalPrice K) (double_mul (Product.price P) 1)) /\
  (forall existing,
     find (fun item => CartItem.id item =? Product.id P) K = Some existing ->
     (CartItem.quantity existing < Product.stock P ->
      totalItems (addToCart P K) = totalItems K + 1) /\
     (Product.stock P <= CartItem.quantity existing ->
      totalItems (addToCart P K) = totalItems K /\
      totalPrice (addToCart P K) = totalPrice K)).
Proof.
  intros Hnd. split.
  - intros Hfind. unfold addToCart. rewrite Hfind. split.
    + rewrite !totalItems_sum, sum_quantities_app. simpl. lia.
    + unfold totalPrice. rewrite fold_left_app. reflexivity.
  - intros existing Hfind. unfold addToCart. rewrite Hfind.
    apply find_line_some in Hfind as [Hin Hid].
    split; intros Hq.
    + apply Z.ltb_lt in Hq. rewrite Hq. rewrite <- Hid.
      destruct (in_split _ _ Hin) as [before [after ->]].
      rewrite increment_line_in_place by exact Hnd.
      rewrite !totalItems_split. simpl. lia.
    + apply Z.ltb_ge in Hq. rewrite Hq. split; reflexivity.
Qed.

Lemma addToCart_adds_one_unit_witness :
  totalItems (addToCart red_hat [shirt_line 1]) = 2 /\
  totalItems (addToCart red_shirt [shirt_line 1]) = 2 /\
  totalItems (addToCart red_shirt [shirt_line 2]) = 2.
Proof.
  assert (NoDup (map CartItem.id [shirt_line 1])) as Hnd1
    by (apply distinct_ids_NoDup; reflexivity).
  assert (NoDup (map CartItem.id [shirt_line 2])) as Hnd2
    by (apply distinct_ids_NoDup; reflexivity).
  split; [|split].
  - destruct (addToCart_adds_one_unit red_hat [shirt_line 1] Hnd1) as [Hnew _].
    apply Hnew. reflexivity.
  - destruct (addToCart_adds_one_unit red_shirt [shirt_line 1] Hnd1) as [_ Hold].
    destruct (Hold (shirt_line 1) eq_refl) as [Hgrow _].
    apply Hgrow. simpl. lia.
  - destruct (addToCart_adds_one_unit red_shirt [shirt_line 2] Hnd2) as [_ Hold].
    destruct (Hold (shirt_line 2) eq_refl) as [_ Hfull].
    apply Hfull. simpl. lia.
Defined.

(** X4: in a cart with distinct ids, removing a line takes its quantity
    off the number of items, and an accepted [updateQuantity] replaces the
    quantity of the line by the new one in the number of items. *)
Theorem totals_follow_the_line (K : Cart) (line : CartItem.t) :
  NoDup (map CartItem.id K) -> In line K ->
  totalItems (removeFromCart (CartItem.id line) K)
  = totalItems K - CartItem.quantity line /\
  (forall q maxStock,
     1 <= q <= maxStock ->
     totalItems (updateQuantity (CartItem.id line) q maxStock K)
     = totalItems K - CartItem.quantity line + q).
Proof.
  intros Hnd Hin.
  destruct (in_split _ _ Hin) as [before [after ->]]. split.
  - rewrite removeFromCart_in_place by exact Hnd.
    rewrite totalItems_split.
    rewrite !totalItems_sum.
    rewrite sum_quantities_app. lia.
  - intros q maxStock Hq. unfold updateQuantity.
    destruct (Z.ltb_spec q 1); [lia|]. rewrite Z.gtb_ltb.
    destruct (Z.ltb_spec maxStock q); [lia|]. simpl.
    rewrite set_line_in_place by exact Hnd.
    rewrite !totalItems_split. simpl. lia.
Qed.

Lemma totals_follow_the_line_witness :
  totalItems (removeFromCart 1 [spread_product red_hat 3; shirt_line 2]) = 3 /\
  totalItems (updateQuantity 1 1 2 [spread_product red_hat 3; shirt_line 2]) = 4.
Proof.
  assert (NoDup (map CartItem.id [spread_product red_hat 3; shirt_line 2])) as Hnd
    by (apply distinct_ids_NoDup; reflexivity).
  assert (In (shirt_line 2) [spread_product red_hat 3; shirt_line 2]) as Hin
    by (right; left; reflexivity).
  destruct (totals_follow_the_line _ _ Hnd Hin) as [Hremove Hupdate].
  split; [exact Hremove|].
  apply (Hupdate 1 2). lia.
Defined.

(** ** What the handlers leave alone *)

Lemma filter_map_fixed {A : Type} (keep : A -> bool) (g : A -> A) (l : list A) :
  (forall x, keep (g x) = keep x) ->
  (forall x, keep x = true -> g x = x) ->
  filter keep (map g l) = filter keep l.
Proof.
  intros Hkeep Hfixed. induction l as [|x rest IH]; simpl; [reflexivity|].
  rewrite Hkeep. destruct (keep x) eqn:Hx; [|exact IH].
  rewrite (Hfixed x Hx), IH. reflexivity.
Qed.

(** X5: [addToCart] and [updateQuantity] leave the lines of every other
    product as they are and where they are: taking the product out
    afterwards gives the cart that taking it out before gives.  Removing is
    idempotent, and two removals commute. *)
Theorem other_lines_are_left_alone (K : Cart) :
  (forall P, removeFromCart (Product.id P) (addToCart P K)
             = removeFromCart (Product.id P) K) /\
  (forall id q maxStock,
     removeFromCart id (updateQuantity id q maxStock K) = removeFromCart id K) /\
  (forall id, removeFromCart id (removeFromCart id K) = removeFromCart id K) /\
  (forall a b, removeFromCart a (removeFromCart b K)
               = removeFromCart b (removeFromCart a K)).
Proof.
  split; [|split; [|split]].
  - intros P. unfold addToCart.
    destruct (find _ K) as [existing|].
    + destruct (_ <? _); [|reflexivity].
      unfold removeFromCart. apply filter_map_fixed.
      * intros item. rewrite increment_line_id. reflexivity.
      * intros item Hitem. apply increment_line_other.
        apply negb_true_iff, Z.eqb_neq in Hitem. exact Hitem.
    + unfold removeFromCart. rewrite filter_app. simpl.
      rewrite Z.eqb_refl. simpl. apply app_nil_r.
  - intros id q maxStock. unfold updateQuantity.
    destruct (_ || _); [reflexivity|].
    unfold removeFromCart. apply filter_map_fixed.
    + intros item. rewrite set_line_id. reflexivity.
    + intros item Hitem. apply set_line_other.
      apply negb_true_iff, Z.eqb_neq in Hitem. exact Hitem.
  - intros id. unfold removeFromCart.
    rewrite (filter_twice _ _ (fun item => negb (CartItem.id item =? id))); [reflexivity|].
    intros item. destruct (negb _); reflexivity.
  - intros a b. unfold removeFromCart.
    rewrite (filter_twice _ _
               (fun item => negb (CartItem.id item =? b) && negb (CartItem.id item =? a)))
      by reflexivity.
    rewrite (filter_twice _ _
               (fun item => negb (CartItem.id item =? b) && negb (CartItem.id item =? a)));
      [reflexivity|].
    intros item. apply andb_comm.
Qed.

(** ** The empty state of the cart view *)

Lemma sum_quantities_lines (K : Cart) :
  Forall line_ok K ->
  Z.of_nat (List.length K) <= sum_quantities K.
Proof.
  induction 1 as [|item rest Hitem Hrest IH]; simpl List.length; simpl sum_quantities.
  - lia.
  - unfold line_ok in Hitem. lia.
Qed.

(** X6: for a cart that satisfies the cart invariant, the cart view shows
    its empty state exactly when the badge shows 0 items, and the badge
    never shows fewer items than the cart has lines. *)
Theorem empty_cart_shows_zero_items (K : Cart) :
  cart_inv K ->
  (cart_is_empty K = true <-> totalItems K = 0) /\
  Z.of_nat (List.length K) <= totalItems K.
Proof.
  intros [_ Hok]. pose proof (sum_quantities_lines K Hok) as Hlen.
  rewrite totalItems_sum. split; [|exact Hlen].
  unfold cart_is_empty. rewrite Nat.eqb_eq. split.
  - intros Hempty. destruct K; [reflexivity | discriminate Hempty].
  - intros Hzero. lia.
Qed.

Lemma empty_cart_shows_zero_items_witness :
  (cart_is_empty [shirt_line 2] = true <-> totalItems [shirt_line 2] = 0) /\
  Z.of_nat (List.length [shirt_line 2]) <= totalItems [shirt_line 2].
Proof.
  apply empty_cart_shows_zero_items. apply cart_invb_spec. reflexivity.
Defined.

(** * More on the catalog view *)

Lemma filter_all {A : Type} (f : A -> bool) (l : list A) :
  (forall x, In x l -> f x = true) -> filter f l = l.
Proof.
  intros Hall. induction l as [|x rest IH]; simpl; [reflexivity|].
  rewrite Hall by (left; reflexivity).
  f_equal. apply IH. intros y Hy. apply Hall. right. exact Hy.
Qed.

Lemma includes_empty (s : string) : includes s EmptyString = true.
Proof. destruct s; reflexivity. Qed.

Lemma visibleb_no_filter (p : Product.t) : visibleb "" "all" p = true.
Proof.
  unfold visibleb, matches_search, matches_category. simpl.
  rewrite includes_empty. reflexivity.
Qed.

(** Which products the view holds, whatever the sort order. *)
Lemma filteredProducts_In (C : Catalog) (search selected order : string)
  (p : Product.t) :
  In p (filteredProducts C search selected order) <->
  In p C /\ visibleb search selected p = true.
Proof.
  unfold filteredProducts. rewrite filters_are_visibleb.
  rewrite <- filter_In. split; apply Permutation_in.
  - apply Array_sort_perm.
  - apply Permutation_sym, Array_sort_perm.
Qed.

Lemma filteredProducts_length (C : Catalog) (search selected order : string) :
  List.length (filteredProducts C search selected order)
  = List.length (filter (visibleb search selected) C).
Proof.
  unfold filteredProducts. rewrite filters_are_visibleb.
  apply Permutation_length, Array_sort_perm.
Qed.

(** X7: after [clearFilters] (and with the initial filter state), once
    the debounced search text has followed, the view is the whole catalog in
    its order. *)
Theorem clearFilters_shows_the_catalog (products : Catalog) (f : FilterState) :
  filteredProducts products (searchTerm (clearFilters f))
    (selectedCategory (clearFilters f)) (sortOrder (clearFilters f))
  = products /\
  filteredProducts products (searchTerm initial_filters)
    (selectedCategory initial_filters) (sortOrder initial_filters)
  = products.
Proof.
  assert (filteredProducts products "" "all" "" = products) as Hall.
  { unfold filteredProducts. rewrite filters_are_visibleb.
    rewrite filter_all by (intros p _; apply visibleb_no_filter).
    apply Array_sort_no_preference. intros x y. reflexivity. }
  split; exact Hall.
Qed.

(** X8: the view is complete: a product is shown exactly when it is in
    the catalog and satisfies the search and category predicate, no product
    is shown more often than the catalog has it, and the empty state [No
    products found] shows exactly when no product of the catalog satisfies
    the predicate. *)
Theorem filteredProducts_complete (C : Catalog) (search selected order : string) :
  (forall p, In p (filteredProducts C search selected order) <->
             In p C /\ visible search selected p) /\
  (List.length (filteredProducts C search selected order) <= List.length C)%nat /\
  (no_products_found C search selected order = true <->
   forall p, In p C -> ~ visible search selected p).
Proof.
  split; [|split].
  - intros p. rewrite filteredProducts_In, visibleb_spec. reflexivity.
  - rewrite filteredProducts_length. apply filter_length_le.
  - unfold no_products_found. rewrite Nat.eqb_eq, filteredProducts_length. split.
    + intros Hempty p Hin Hvis.
      apply length_zero_iff_nil in Hempty.
      assert (In p (filter (visibleb search selected) C)) as Hp
        by (apply filter_In; split; [exact Hin | apply visibleb_spec, Hvis]).
      rewrite Hempty in Hp. contradiction.
    + intros Hnone. apply length_zero_iff_nil.
      destruct (filter (visibleb search selected) C) as [|p rest] eqn:Hfilter;
        [reflexivity|].
      assert (In p (filter (visibleb search selected) C)) as Hp
        by (rewrite Hfilter; left; reflexivity).
      apply filter_In in Hp as [Hin Hvis].
      exfalso. apply (Hnone p Hin). apply visibleb_spec, Hvis.
Qed.

(** X9: every option of the category selector leads somewhere: with no
    search text and a catalog that is not empty, choosing an option of
    [categories] never gives the empty state; and a category that is not an
    option gives the empty state, whatever the search text. *)
Theorem category_options_are_not_empty (products : Catalog) (cat order : string) :
  (In cat (categories products) -> products <> [] ->
   no_products_found products "" cat order = false) /\
  (forall search, ~ In cat (categories products) ->
                  no_products_found products search cat order = true).
Proof.
  split.
  - intros Hcat Hproducts.
    assert (exists p, In p products /\ visibleb "" cat p = true) as [p [Hin Hvis]].
    { unfold visibleb, matches_search, matches_category.
      destruct (String.eqb_spec cat "all") as [-> | Hne].
      - destruct products as [|p rest]; [contradiction|].
        exists p. split; [left; reflexivity|].
        simpl. rewrite includes_empty. reflexivity.
      - destruct Hcat as [Hall | Htail]; [symmetry in Hall; contradiction|].
        rewrite Set_from_first_seen, first_seen_In in Htail.
        apply in_map_iff in Htail as [p [Hp Hin]].
        exists p. split; [exact Hin|].
        simpl. rewrite includes_empty, Hp, String.eqb_refl. reflexivity. }
    unfold no_products_found. apply Nat.eqb_neq. intros Hlen.
    apply length_zero_iff_nil in Hlen.
    assert (In p (filteredProducts products "" cat order)) as Hp
      by (apply filteredProducts_In; split; assumption).
    rewrite Hlen in Hp. contradiction.
  - intros search Hcat. unfold no_products_found.
    apply Nat.eqb_eq. rewrite filteredProducts_length. apply length_zero_iff_nil.
    destruct (filter (visibleb search cat) products) as [|p rest] eqn:Hfilter;
      [reflexivity|].
    assert (In p (filter (visibleb search cat) products)) as Hp
      by (rewrite Hfilter; left; reflexivity).
    apply filter_In in Hp as [Hin Hvis].
    unfold visibleb, matches_category in Hvis.
    apply andb_true_iff in Hvis as [_ Hselected].
    exfalso. apply Hcat. unfold categories.
    apply orb_true_iff in Hselected as [Hall | Hsame].
    + apply String.eqb_eq in Hall. left. symmetry. exact Hall.
    + apply String.eqb_eq in Hsame. right.
      rewrite Set_from_first_seen, first_seen_In, <- Hsame.
      apply in_map, Hin.
Qed.

Lemma category_options_are_not_empty_witness :
  no_products_found sample_catalog "" "kitchen" "low" = false /\
  no_products_found sample_catalog "red" "garden" "" = true.
Proof.
  split.
  - destruct (category_options_are_not_empty sample_catalog "kitchen" "low")
      as [Hoption _].
    apply Hoption; [right; right; left; reflexivity | discriminate].
  - destruct (category_options_are_not_empty sample_catalog "garden" "")
      as [_ Hother].
    apply Hother. intros [H | [H | [H | []]]]; discriminate H.
Defined.

(** ** Search texts *)

Lemma string_app_assoc (a b c : string) :
  ((a ++ b) ++ c = a ++ (b ++ c))%string.
Proof. induction a as [|x a IH]; simpl; [reflexivity | rewrite IH; reflexivity]. Qed.




(** X11: the sort order only rearranges the view: for two sort orders,
    the views of the same catalog under the same search text and category
    hold the same products, each as often. *)
Theorem sort_order_only_rearranges (C : Catalog)
  (search selected order order' : string) :
  Permutation (filteredProducts C search selected order)
    (filteredProducts C search selected order').
Proof.
  unfold filteredProducts.
  apply perm_trans with
    (filter (matches_category selected) (filter (matches_search search) C)).
  - apply Array_sort_perm.
  - apply Permutation_sym, Array_sort_perm.
Qed.

(** ** The labels of the category selector *)

Lemma lower_upper_char (c : ascii) : lower_char (upper_char c) = lower_char c.
Proof.
  destruct c as [[] [] [] [] [] [] [] []]; reflexivity.
Qed.

(** X12: the label of a category option is the category up to the case
    of its first letter: for a category of ASCII text, the label has the
    length of the category, and in lower case the two are the same text. *)
Theorem option_label_is_the_category (cat : string) :
  is_ascii_text cat = true ->
  String.length (option_label cat) = String.length cat /\
  toLowerCase (option_label cat) = toLowerCase cat.
Proof.
  intros _. destruct cat as [|c rest]; simpl; [split; reflexivity|].
  rewrite lower_upper_char. split; reflexivity.
Qed.

Lemma option_label_is_the_category_witness :
  String.length (option_label "kitchen") = String.length "kitchen" /\
  toLowerCase (option_label "kitchen") = toLowerCase "kitchen".
Proof.
  apply option_label_is_the_category. reflexivity.
Defined.

(** * The debounced search text *)

Lemma mount_inv (v : string) (delay : nat) : hook_inv delay (mount v delay).
Proof. unfold hook_inv, mount. simpl. split; [reflexivity | lia]. Qed.

Lemma hook_step_inv (delay : nat) (h : Debounce.t) (e : hook_event) :
  hook_inv delay h -> hook_inv delay (hook_step delay h e).
Proof.
  unfold hook_inv. destruct e as [v|]; simpl.
  - unfold render. destruct (String.eqb v (Debounce.value h)); [tauto|].
    intros _. simpl. split; [reflexivity | lia].
  - unfold tick.
    destruct (Debounce.handler h) as [[v [|[|remaining]]]|] eqn:Hhandler; simpl.
    + intros [Hv _]. exact Hv.
    + intros [Hv _]. exact Hv.
    + intros [Hv Hle]. split; [exact Hv | lia].
    + rewrite Hhandler. tauto.
Qed.

Lemma hook_run_inv (delay : nat) (events : list hook_event) (h : Debounce.t) :
  hook_inv delay h -> hook_inv delay (hook_run delay h events).
Proof.
  unfold hook_run. revert h.
  induction events as [|e rest IH]; intros h Hinv; simpl; [exact Hinv|].
  apply IH, hook_step_inv, Hinv.
Qed.

(** Time alone: what waits is delivered when its time is up. *)
Lemma ticks_deliver (n : nat) (h : Debounce.t) :
  match Debounce.handler h with
  | Some (v, remaining) =>
      v = Debounce.value h /\ (remaining <= n)%nat /\ (0 < n)%nat
  | None => Debounce.debouncedValue h = Debounce.value h
  end ->
  Debounce.debouncedValue (ticks n h) = Debounce.value h /\
  Debounce.value (ticks n h) = Debounce.value h /\
  Debounce.handler (ticks n h) = None.
Proof.
  revert h. induction n as [|n IH]; intros h Hh.
  - simpl. destruct (Debounce.handler h) as [[v remaining]|] eqn:Hhandler;
      [lia | repeat split; assumption].
  - simpl. unfold tick.
    destruct (Debounce.handler h) as [[v [|[|remaining]]]|] eqn:Hhandler.
    + destruct Hh as [-> _]. apply (IH (Debounce.mk _ _ None)). reflexivity.
    + destruct Hh as [-> _]. apply (IH (Debounce.mk _ _ None)). reflexivity.
    + destruct Hh as [-> [Hle _]].
      apply (IH (Debounce.mk _ _ (Some (_, S remaining)))). simpl.
      split; [reflexivity | lia].
    + apply IH. rewrite Hhandler. exact Hh.
Qed.

(** X13: the debounced value follows the input once it has settled: in
    every state the hook reaches from its mount by changes of the input and
    ticks of time, for a positive [delay], [delay] ticks without a change
    of the input make the debounced value the value of the input, with no
    timeout left waiting; and whenever one step changes the debounced value,
    the new one is the value the input has at that moment, never an earlier
    one. *)
Theorem debounce_delivers_the_settled_input
  (delay : nat) (v : string) (events : list hook_event) :
  (0 < delay)%nat ->
  let h := hook_run delay (mount v delay) events in
  (Debounce.debouncedValue (ticks delay h) = Debounce.value h /\
   Debounce.handler (ticks delay h) = None) /\
  (forall e,
     Debounce.debouncedValue (hook_step delay h e) = Debounce.debouncedValue h \/
     (e = Tick /\ Debounce.debouncedValue (hook_step delay h e) = Debounce.value h)).
Proof.
  intros Hdelay h.
  assert (hook_inv delay h) as Hinv by apply hook_run_inv, mount_inv.
  split.
  - destruct (ticks_deliver delay h) as [Hdebounced [_ Hhandler]];
      [|split; assumption].
    unfold hook_inv in Hinv.
    destruct (Debounce.handler h) as [[w remaining]|]; [|exact Hinv].
    destruct Hinv as [Hw Hle]. repeat split; assumption.
  - intros [w|]; simpl.
    + left. unfold render. destruct (String.eqb w (Debounce.value h)); reflexivity.
    + unfold tick. unfold hook_inv in Hinv.
      destruct (Debounce.handler h) as [[w [|[|remaining]]]|]; simpl.
      * right. split; [reflexivity | apply Hinv].
      * right. split; [reflexivity | apply Hinv].
      * left. reflexivity.
      * left. reflexivity.
Qed.

Lemma debounce_delivers_the_settled_input_witness :
  Debounce.debouncedValue
    (ticks 3 (hook_run 3 (mount "" 3) [Input "r"; Tick; Input "re"; Tick; Tick]))
  = "re"%string.
Proof.
  apply (debounce_delivers_the_settled_input 3 ""
           [Input "r"; Tick; Input "re"; Tick; Tick]).
  lia.
Defined.

(** While the input keeps changing, the handler that waits is always the
    one of the last change and has not run out. *)
Lemma keeps_typing_holds_back (delay : nat) (events : list hook_event) :
  forall (h : Debounce.t) (quiet remaining : nat),
    Debounce.handler h = Some (Debounce.value h, remaining) ->
    (remaining + quiet = delay)%nat ->
    keeps_typing delay quiet (Debounce.value h) events = true ->
    Debounce.debouncedValue (hook_run delay h events) = Debounce.debouncedValue h.
Proof.
  unfold hook_run.
  induction events as [|[v|] rest IH]; intros h quiet remaining Hhandler Htime Hkeeps;
    simpl in *; [reflexivity| |].
  - unfold render. destruct (String.eqb v (Debounce.value h)).
    + apply (IH h quiet remaining); assumption.
    + rewrite (IH (Debounce.mk v (Debounce.debouncedValue h) (Some (v, delay)))
                 0%nat delay); simpl; try reflexivity; try lia. exact Hkeeps.
  - apply andb_true_iff in Hkeeps as [Hquiet Hkeeps].
    apply Nat.ltb_lt in Hquiet.
    unfold tick. rewrite Hhandler.
    destruct remaining as [|[|remaining]]; [lia | lia |].
    rewrite (IH (Debounce.mk (Debounce.value h) (Debounce.debouncedValue h)
                   (Some (Debounce.value h, S remaining)))
               (S quiet) (S remaining)); simpl; try reflexivity; try lia.
    exact Hkeeps.
Qed.

(** X14: keystrokes inside the delay window never reach the engine: from
    a change of the input on, as long as the input changes again before it
    has held a value for [delay] ticks, the debounced value stays what it
    was before the first change. *)
Theorem debounce_holds_back_while_typing
  (delay : nat) (h : Debounce.t) (v : string) (events : list hook_event) :
  v <> Debounce.value h ->
  keeps_typing delay 0 v events = true ->
  Debounce.debouncedValue (hook_run delay (render v delay h) events)
  = Debounce.debouncedValue h.
Proof.
  intros Hchange Hkeeps. unfold render.
  apply String.eqb_neq in Hchange. rewrite Hchange.
  rewrite (keeps_typing_holds_back delay events _ 0%nat delay);
    simpl; try reflexivity; try lia.
  exact Hkeeps.
Qed.

Lemma debounce_holds_back_while_typing_witness :
  Debounce.debouncedValue
    (hook_run 3 (render "r" 3 (ticks 3 (mount "" 3)))
       [Tick; Tick; Input "re"; Tick; Input "red"; Tick; Tick])
  = ""%string.
Proof.
  apply (debounce_holds_back_while_typing 3 (ticks 3 (mount "" 3)) "r").
  - discriminate.
  - reflexivity.
Defined.

(** * The persisted cart *)

(** ** Strings and numbers read back *)

Lemma quote_char_read (c : ascii) (tail : string) :
  read_string (quote_char c ++ tail) = parsed_cons c (read_string tail).
Proof.
  destruct c as [[] [] [] [] [] [] [] []]; reflexivity.
Qed.

Lemma quote_chars_read (s rest : string) :
  read_string (quote_chars s ++ String double_quote rest) = Parsed s rest.
Proof.
  induction s as [|c s IH]; simpl; [reflexivity|].
  rewrite string_app_assoc, quote_char_read, IH. reflexivity.
Qed.

Lemma digit_value_char (d : Z) :
  0 <= d < 10 ->
  digit_value (digit_char d) = Some d /\
  Ascii.eqb (digit_char d) "0" = (d =? 0) /\
  Ascii.eqb (digit_char d) "-" = false /\
  is_ws (digit_char d) = false.
Proof.
  intros Hd.
  assert (d = 0 \/ d = 1 \/ d = 2 \/ d = 3 \/ d = 4 \/ d = 5 \/ d = 6 \/ d = 7
          \/ d = 8 \/ d = 9) as Hcases by lia.
  repeat destruct Hcases as [-> | Hcases]; try subst d; repeat split.
Qed.

Lemma pow10_pos (k : nat) : 0 < 10 ^ Z.of_nat k.
Proof. apply Z.pow_pos_nonneg; lia. Qed.

Lemma pow10_succ (k : nat) : 10 ^ Z.of_nat (S k) = 10 ^ Z.of_nat k * 10.
Proof. rewrite Nat2Z.inj_succ, Z.pow_succ_r by lia. lia. Qed.

Lemma mod_pow10_succ (n : Z) (k : nat) :
  n mod 10 ^ Z.of_nat (S k)
  = (n / 10 ^ Z.of_nat k) mod 10 * 10 ^ Z.of_nat k + n mod 10 ^ Z.of_nat k.
Proof.
  pose proof (pow10_pos k) as Hpos.
  rewrite pow10_succ, Z.rem_mul_r by lia. lia.
Qed.

Lemma read_digits_below (k : nat) (n : Z) (rest : string) :
  forall acc count,
    read_digits (digits_below k n ++ rest) acc count
    = read_digits rest (acc * 10 ^ Z.of_nat k + n mod 10 ^ Z.of_nat k)
        (count + k).
Proof.
  induction k as [|k IH]; intros acc count.
  - simpl. rewrite Z.mod_1_r, Nat.add_0_r. f_equal. lia.
  - cbn [digits_below append].
    cbn [read_digits].
    destruct (digit_value_char ((n / 10 ^ Z.of_nat k) mod 10)) as [Hvalue _].
    { apply Z.mod_pos_bound. lia. }
    rewrite Hvalue, IH, mod_pow10_succ, pow10_succ.
    f_equal; lia.
Qed.

Lemma ends_number_no_digit (rest : string) : ends_number rest -> no_digit rest.
Proof. destruct rest; simpl; tauto. Qed.

Lemma read_digits_end (rest : string) (acc : Z) (count : nat) :
  no_digit rest -> read_digits rest acc count = (acc, count, rest).
Proof.
  destruct rest as [|c rest]; simpl; [reflexivity|].
  intros ->. reflexivity.
Qed.

Lemma read_int_stripped (k : nat) (n : Z) (rest : string) :
  0 <= n < 10 ^ Z.of_nat (S k) -> no_digit rest ->
  read_int (strip_zeros (digits_below (S k) n) ++ rest) = Some (n, rest) /\
  exists d tail,
    0 <= d < 10 /\ strip_zeros (digits_below (S k) n) = String (digit_char d) tail.
Proof.
  intros Hn Hrest. induction k as [|k IH].
  - cbn [digits_below]. change (10 ^ Z.of_nat 0) with 1.
    rewrite Z.div_1_r. change (10 ^ Z.of_nat 1) with 10 in Hn.
    rewrite Z.mod_small by lia.
    destruct (digit_value_char n Hn) as [Hvalue [Hzero _]].
    assert (strip_zeros (String (digit_char n) "") = String (digit_char n) "") as ->
      by (cbn [strip_zeros]; destruct (Ascii.eqb (digit_char n) "0"); reflexivity).
    split; [|exists n, EmptyString; split; [exact Hn | reflexivity]].
    cbn [append read_int]. rewrite Hvalue.
    destruct (Z.eqb_spec n 0) as [-> | Hne]; [reflexivity|].
    rewrite read_digits_end by exact Hrest. reflexivity.
  - pose proof (pow10_pos (S k)) as Hpos.
    set (d := n / 10 ^ Z.of_nat (S k)).
    assert (0 <= d < 10) as Hd.
    { unfold d. split; [apply Z.div_pos; lia|].
      apply Z.div_lt_upper_bound; [lia|]. rewrite (pow10_succ (S k)) in Hn. lia. }
    assert (digits_below (S (S k)) n
            = String (digit_char d) (digits_below (S k) n)) as Hdigits.
    { cbn [digits_below]. fold d. rewrite (Z.mod_small d) by lia. reflexivity. }
    rewrite Hdigits.
    destruct (digit_value_char d Hd) as [Hvalue [Hzero _]].
    destruct (Z.eqb_spec d 0) as [Hd0 | Hd0].
    + assert (strip_zeros (String (digit_char d) (digits_below (S k) n))
              = strip_zeros (digits_below (S k) n)) as ->.
      { cbn [strip_zeros]. rewrite Hzero. reflexivity. }
      apply IH. split; [lia|].
      unfold d in Hd0. apply Z.div_small_iff in Hd0; lia.
    + assert (strip_zeros (String (digit_char d) (digits_below (S k) n))
              = String (digit_char d) (digits_below (S k) n)) as ->.
      { cbn [strip_zeros]. rewrite Hzero. reflexivity. }
      split; [|exists d, (digits_below (S k) n); split; [exact Hd | reflexivity]].
      cbn [append read_int]. rewrite Hvalue.
      destruct (Z.eqb_spec d 0) as [|_]; [contradiction|].
      rewrite read_digits_below, read_digits_end by exact Hrest.
      f_equal. f_equal. unfold d.
      pose proof (Z.div_mod n (10 ^ Z.of_nat (S k))). lia.
Qed.

Lemma decimal_digits_read (n : Z) (rest : string) :
  0 <= n -> no_digit rest ->
  read_int (decimal_digits n ++ rest) = Some (n, rest) /\
  exists d tail, 0 <= d < 10 /\ decimal_digits n = String (digit_char d) tail.
Proof.
  intros Hn Hrest. unfold decimal_digits. apply read_int_stripped; [|exact Hrest].
  split; [exact Hn|].
  rewrite Nat2Z.inj_succ, Z2Nat.id by apply Z.log2_nonneg.
  destruct (Z.eq_dec n 0) as [-> | Hne]; [reflexivity|].
  apply Z.lt_le_trans with (2 ^ Z.succ (Z.log2 n)).
  - apply Z.log2_spec. lia.
  - apply Z.pow_le_mono_l. lia.
Qed.

Lemma decimal_places_spec (fuel : nat) (num : Z) (den : positive) :
  forall k0 k, decimal_places fuel k0 num den = Some k ->
               (num * 10 ^ Z.of_nat k) mod Z.pos den = 0.
Proof.
  induction fuel as [|fuel IH]; intros k0 k; cbn [decimal_places];
    destruct (Z.eqb_spec ((num * 10 ^ Z.of_nat k0) mod Z.pos den) 0) as [Hzero | Hnz];
    try discriminate; try (intros [= <-]; exact Hzero).
  apply IH.
Qed.

Lemma read_fraction_end (rest : string) :
  ends_number rest -> read_fraction rest = Some (0, O, rest).
Proof.
  destruct rest as [|c rest]; simpl; [reflexivity|].
  intros [_ [-> _]]. reflexivity.
Qed.

Lemma read_exponent_end (rest : string) :
  ends_number rest -> read_exponent rest = Some (0, rest).
Proof.
  destruct rest as [|c rest]; simpl; [reflexivity|].
  intros [_ [_ [-> ->]]]. reflexivity.
Qed.

Lemma read_fraction_digits (k : nat) (m : Z) (rest : string) :
  ends_number rest ->
  read_fraction (match k with
                 | O => EmptyString
                 | S _ => String "." (digits_below k m)
                 end ++ rest)
  = Some (m mod 10 ^ Z.of_nat k, k, rest).
Proof.
  intros Hrest. destruct k as [|k].
  - cbn [append]. rewrite read_fraction_end by exact Hrest.
    change (10 ^ Z.of_nat 0) with 1. rewrite Z.mod_1_r. reflexivity.
  - cbn [append read_fraction]. change (Ascii.eqb "." ".") with true. cbv iota.
    rewrite read_digits_below, read_digits_end by apply ends_number_no_digit, Hrest.
    cbn [Nat.add]. rewrite Z.mul_0_l, Z.add_0_l. reflexivity.
Qed.

Lemma no_digit_fraction (k : nat) (m : Z) (rest : string) :
  ends_number rest ->
  no_digit (match k with
            | O => EmptyString
            | S _ => String "." (digits_below k m)
            end ++ rest).
Proof.
  intros Hrest. destruct k; [apply ends_number_no_digit, Hrest | reflexivity].
Qed.

(** Reading a number written in plain decimal notation. *)
Lemma read_number_plain (negative : bool) (k : nat) (m : Z) (rest : string) :
  0 <= m -> ends_number rest ->
  read_number
    (((if negative then "-" else "")
      ++ decimal_digits (m / 10 ^ Z.of_nat k)
      ++ match k with
         | O => EmptyString
         | S _ => String "." (digits_below k m)
         end) ++ rest)
  = Parsed (inject_Z (if negative then - m else m)
            * Qpower (inject_Z 10) (0 - Z.of_nat k))%Q rest.
Proof.
  intros Hm Hrest. pose proof (pow10_pos k) as Hpos.
  rewrite !string_app_assoc.
  destruct (decimal_digits_read (m / 10 ^ Z.of_nat k)
              (match k with
               | O => EmptyString
               | S _ => String "." (digits_below k m)
               end ++ rest)) as [Hint [d [tail [Hd Hhead]]]];
    [apply Z.div_pos; lia | apply no_digit_fraction, Hrest |].
  assert (m / 10 ^ Z.of_nat k * 10 ^ Z.of_nat k + m mod 10 ^ Z.of_nat k = m) as Hsplit
    by (pose proof (Z.div_mod m (10 ^ Z.of_nat k)); lia).
  unfold read_number. destruct negative.
  - cbn [append]. change (Ascii.eqb "-" "-") with true. cbv iota.
    rewrite Hint, read_fraction_digits, read_exponent_end by exact Hrest.
    cbv zeta. rewrite Hsplit. reflexivity.
  - cbn [append]. rewrite Hhead in *. cbn [append] in *.
    destruct (digit_value_char d Hd) as [_ [_ [Hminus _]]]. rewrite Hminus.
    rewrite Hint, read_fraction_digits, read_exponent_end by exact Hrest.
    cbv zeta. rewrite Hsplit. reflexivity.
Qed.

Lemma decimal_value (q : Q) (sm : Z) (k : nat) :
  sm * Z.pos (Qden q) = Qnum q * 10 ^ Z.of_nat k ->
  (inject_Z sm * Qpower (inject_Z 10) (0 - Z.of_nat k) == q)%Q.
Proof.
  intros Hsm. pose proof (pow10_pos k) as Hpos.
  rewrite Z.sub_0_l, Qpower_opp, <- Zpower_Qpower by lia.
  destruct q as [n d]. simpl in Hsm.
  unfold Qeq, Qmult, Qinv, inject_Z. simpl.
  destruct (10 ^ Z.of_nat k) as [|p|p] eqn:Hp; try lia.
  simpl. lia.
Qed.

(** A number that [Number_toString] writes reads back as the same number. *)
Lemma Number_toString_read (q : Q) (text rest : string) :
  Number_toString q = Some text -> ends_number rest ->
  starts_number text /\
  exists q', read_number (text ++ rest) = Parsed q' rest /\ (q' == q)%Q.
Proof.
  unfold Number_toString. intros Htext Hrest.
  destruct (decimal_places _ 0 (Z.abs (Qnum q)) (Qden q)) as [k|] eqn:Hplaces;
    [|discriminate].
  apply decimal_places_spec in Hplaces.
  pose proof (pow10_pos k) as Hpos.
  set (m := Z.abs (Qnum q) * 10 ^ Z.of_nat k / Z.pos (Qden q)) in *.
  assert (m * Z.pos (Qden q) = Z.abs (Qnum q) * 10 ^ Z.of_nat k) as Hm.
  { unfold m. pose proof (Z.div_mod (Z.abs (Qnum q) * 10 ^ Z.of_nat k) (Z.pos (Qden q))).
    lia. }
  assert (0 <= m) as Hm0 by (unfold m; apply Z.div_pos; lia).
  destruct (Z.eqb_spec m 0) as [Hzero | Hnz].
  - injection Htext as <-. split.
    + exists "0"%char, EmptyString. split; [reflexivity|].
      right. exists 0. split; [lia | reflexivity].
    + assert (read_number (String "0" rest)
              = Parsed (inject_Z 0 * Qpower (inject_Z 10) (0 - Z.of_nat 0))%Q rest)
        as Hread.
      { unfold read_number. change (Ascii.eqb "0" "-") with false. cbv iota.
        assert (read_int (String "0" rest) = Some (0, rest)) as -> by reflexivity.
        rewrite read_fraction_end, read_exponent_end by exact Hrest. reflexivity. }
      eexists. split; [exact Hread|].
      apply decimal_value. rewrite Hzero in Hm.
      assert (Qnum q = 0) as ->.
      { symmetry in Hm. rewrite Z.mul_0_l in Hm.
        apply Z.mul_eq_0 in Hm as [Habs | Hpow]; [|lia].
        apply Z.abs_0_iff, Habs. }
      reflexivity.
  - destruct (_ && _); [|discriminate].
    match type of Htext with
    | Some ?written = Some _ => assert (text = written) as -> by congruence
    end.
    clear Htext.
    destruct (decimal_digits_read (m / 10 ^ Z.of_nat k) EmptyString)
      as [_ [d [tail [Hd Hhead]]]]; [apply Z.div_pos; lia | exact I |].
    split.
    + destruct (Qnum q <? 0).
      * eexists _, _. split; [reflexivity | left; reflexivity].
      * rewrite Hhead. eexists _, _. split; [reflexivity|].
        right. exists d. split; [exact Hd | reflexivity].
    + rewrite (read_number_plain (Qnum q <? 0) k m rest Hm0 Hrest).
      eexists. split; [reflexivity|].
      apply decimal_value.
      destruct (Z.ltb_spec (Qnum q) 0) as [Hneg | Hpos'].
      * rewrite Z.abs_neq in Hm by lia. lia.
      * rewrite Z.abs_eq in Hm by lia. lia.
Qed.

(** ** Values read back *)

Lemma json_nested_ind (P : json -> Prop) :
  P JNull -> (forall b, P (JBool b)) -> (forall q, P (JNumber q)) ->
  (forall s, P (JString s)) ->
  (forall l, Forall P l -> P (JArray l)) ->
  (forall m, Forall (fun kv => P (snd kv)) m -> P (JObject m)) ->
  forall v, P v.
Proof.
  intros Hnull Hbool Hnumber Hstring Harray Hobject.
  fix IH 1. intros [ |b|q|s|l|m].
  - exact Hnull.
  - apply Hbool.
  - apply Hnumber.
  - apply Hstring.
  - apply Harray. induction l as [|x l IHl]; constructor; [apply IH | exact IHl].
  - apply Hobject. induction m as [|[k x] m IHm]; constructor; [apply IH | exact IHm].
Qed.

Lemma JSON_stringify_array (l : list json) :
  JSON_stringify (JArray l)
  = match stringify_elements l with
    | Some texts => Some (String "[" (comma_join texts ++ "]"))
    | None => None
    end.
Proof.
  cbn [JSON_stringify].
  match goal with
  | |- match ?each l with _ => _ end = _ =>
      assert (each l = stringify_elements l) as ->; [|reflexivity]
  end.
  induction l as [|x l IH]; [reflexivity|].
  cbn [stringify_elements]. rewrite <- IH. reflexivity.
Qed.

Lemma JSON_stringify_object (m : list (string * json)) :
  JSON_stringify (JObject m)
  = match stringify_members m with
    | Some texts => Some (String "{" (comma_join texts ++ "}"))
    | None => None
    end.
Proof.
  cbn [JSON_stringify].
  match goal with
  | |- match ?each m with _ => _ end = _ =>
      assert (each m = stringify_members m) as ->; [|reflexivity]
  end.
  induction m as [|[k x] m IH]; [reflexivity|].
  cbn [stringify_members]. rewrite <- IH. reflexivity.
Qed.

Lemma distinct_keys_array (l : list json) :
  distinct_keys (JArray l) <-> Forall distinct_keys l.
Proof.
  cbn [distinct_keys].
  induction l as [|x l IH]; [split; constructor|].
  rewrite IH. split.
  - intros [Hx Hl]. constructor; assumption.
  - intros H. inversion H; subst. split; assumption.
Qed.

Lemma distinct_keys_object (m : list (string * json)) :
  distinct_keys (JObject m) <->
  NoDup (map fst m) /\ Forall (fun kv => distinct_keys (snd kv)) m.
Proof.
  cbn [distinct_keys].
  assert ((fix all (l : list (string * json)) : Prop :=
             match l with
             | [] => True
             | (_, x) :: rest => distinct_keys x /\ all rest
             end) m <-> Forall (fun kv => distinct_keys (snd kv)) m) as ->;
    [|reflexivity].
  induction m as [|[k x] m IH]; [split; constructor|].
  rewrite IH. split.
  - intros [Hx Hm]. constructor; assumption.
  - intros H. inversion H; subst. split; assumption.
Qed.

(** ** Enough fuel stays enough *)

Lemma read_value_fuel_le (f f' : nat) (s : string) (v : json) (rest : string) :
  read_value f s = Parsed v rest -> (f <= f')%nat ->
  read_value f' s = Parsed v rest.
Proof.
  intros Hread Hle. replace f' with (f + (f' - f))%nat by lia.
  rewrite (proj1 (read_more_fuel f)); [exact Hread|].
  rewrite Hread. discriminate.
Qed.

Lemma read_elements_fuel_le (f f' : nat) (s : string) (acc : list json)
  (v : json) (rest : string) :
  read_elements f s acc = Parsed v rest -> (f <= f')%nat ->
  read_elements f' s acc = Parsed v rest.
Proof.
  intros Hread Hle. replace f' with (f + (f' - f))%nat by lia.
  rewrite (proj1 (proj2 (read_more_fuel f))); [exact Hread|].
  rewrite Hread. discriminate.
Qed.

Lemma read_members_fuel_le (f f' : nat) (s : string)
  (acc : list (string * json)) (v : json) (rest : string) :
  read_members f s acc = Parsed v rest -> (f <= f')%nat ->
  read_members f' s acc = Parsed v rest.
Proof.
  intros Hread Hle. replace f' with (f + (f' - f))%nat by lia.
  rewrite (proj2 (proj2 (read_more_fuel f))); [exact Hread|].
  rewrite Hread. discriminate.
Qed.

(** ** One step of the reader on a written text *)

Lemma read_value_as_number (fuel : nat) (c : ascii) (tail : string) :
  is_ws c = false ->
  Ascii.eqb c "{" = false -> Ascii.eqb c "[" = false ->
  Ascii.eqb c double_quote = false ->
  Ascii.eqb c "t" = false -> Ascii.eqb c "f" = false -> Ascii.eqb c "n" = false ->
  read_value (S fuel) (String c tail)
  = parsed_map JNumber (read_number (String c tail)).
Proof.
  intros Hws H1 H2 H3 H4 H5 H6.
  cbn [read_value skip_ws]. rewrite Hws, H1, H2, H3, H4, H5, H6. reflexivity.
Qed.

Lemma number_start_char (c : ascii) :
  c = "-"%char \/ (exists d, 0 <= d < 10 /\ c = digit_char d) ->
  is_ws c = false /\ Ascii.eqb c "]" = false /\
  Ascii.eqb c "{" = false /\ Ascii.eqb c "[" = false /\
  Ascii.eqb c double_quote = false /\
  Ascii.eqb c "t" = false /\ Ascii.eqb c "f" = false /\ Ascii.eqb c "n" = false.
Proof.
  intros [-> | [d [Hd ->]]]; [repeat split|].
  assert (d = 0 \/ d = 1 \/ d = 2 \/ d = 3 \/ d = 4 \/ d = 5 \/ d = 6 \/ d = 7
          \/ d = 8 \/ d = 9) as Hcases by lia.
  repeat destruct Hcases as [-> | Hcases]; try subst d; repeat split.
Qed.

Lemma ends_number_delimiter (c : ascii) (rest : string) :
  c = ","%char \/ c = "]"%char \/ c = "}"%char -> ends_number (String c rest).
Proof. intros [-> | [-> | ->]]; repeat split. Qed.

Lemma number_reads_back (q : Q) (text : string) :
  Number_toString q = Some text -> reads_back (JNumber q) text.
Proof.
  intros Htext.
  destruct (Number_toString_read q text EmptyString Htext I)
    as [[c [tail [-> Hc]]] _].
  destruct (number_start_char c Hc) as [Hws [Hclose [H1 [H2 [H3 [H4 [H5 H6]]]]]]].
  split; [exists c, tail; repeat split; assumption|].
  intros rest Hrest.
  destruct (Number_toString_read q _ rest Htext Hrest) as [_ [q' [Hread Hq]]].
  exists 1%nat, (JNumber q'). split; [|constructor; exact Hq].
  cbn [append] in *. rewrite read_value_as_number by assumption.
  rewrite Hread. reflexivity.
Qed.

Lemma string_reads_back (s : string) : reads_back (JString s) (QuoteJSONString s).
Proof.
  split; [eexists _, _; repeat split|].
  intros rest _. exists 1%nat, (JString s). split; [|constructor].
  unfold QuoteJSONString. cbn [append]. rewrite string_app_assoc. cbn [append].
  cbn [read_value skip_ws].
  change (is_ws double_quote) with false. cbv iota.
  change (Ascii.eqb double_quote "{") with false.
  change (Ascii.eqb double_quote "[") with false.
  change (Ascii.eqb double_quote double_quote) with true. cbv iota.
  rewrite quote_chars_read. reflexivity.
Qed.

Lemma literal_reads_back :
  reads_back JNull "null" /\ reads_back (JBool true) "true" /\
  reads_back (JBool false) "false".
Proof.
  split; [|split]; (split; [eexists _, _; split; [reflexivity | split; reflexivity]|]);
    intros rest _; exists 1%nat; eexists; (split; [reflexivity | constructor]).
Qed.

Lemma read_elements_step (fuel : nat) (s : string) (acc : list json) :
  read_elements (S fuel) s acc
  = match read_value fuel s with
    | Parsed v rest =>
        match skip_ws rest with
        | String c rest' =>
            if Ascii.eqb c "," then read_elements fuel rest' (v :: acc)
            else if Ascii.eqb c "]" then Parsed (JArray (rev (v :: acc))) rest'
            else SyntaxError
        | EmptyString => SyntaxError
        end
    | SyntaxError => SyntaxError
    | OutOfFuel => OutOfFuel
    end.
Proof. reflexivity. Qed.

Lemma read_members_step (fuel : nat) (key text : string)
  (acc : list (string * json)) :
  read_members (S fuel) (QuoteJSONString key ++ String ":" text) acc
  = match read_value fuel text with
    | Parsed v rest =>
        match skip_ws rest with
        | String c rest' =>
            if Ascii.eqb c ","
            then read_members fuel rest' (set_member key v acc)
            else if Ascii.eqb c "}"
            then Parsed (JObject (set_member key v acc)) rest'
            else SyntaxError
        | EmptyString => SyntaxError
        end
    | SyntaxError => SyntaxError
    | OutOfFuel => OutOfFuel
    end.
Proof.
  unfold QuoteJSONString. cbn [append]. rewrite string_app_assoc. cbn [append].
  cbn [read_members skip_ws].
  change (is_ws double_quote) with false. cbv iota.
  change (Ascii.eqb double_quote double_quote) with true. cbv iota.
  rewrite quote_chars_read. reflexivity.
Qed.

Lemma read_value_open (fuel : nat) (c : ascii) (tail : string) :
  is_ws c = false ->
  (Ascii.eqb c "]" = false ->
   read_value (S fuel) (String "[" (String c tail))
   = read_elements fuel (String c tail) []) /\
  (Ascii.eqb c "}" = false ->
   read_value (S fuel) (String "{" (String c tail))
   = read_members fuel (String c tail) []).
Proof.
  intros Hws. split; intros Hclose; cbn [read_value skip_ws].
  - change (is_ws "[") with false. cbv iota.
    change (Ascii.eqb "[" "{") with false. change (Ascii.eqb "[" "[") with true.
    cbv iota. cbn [skip_ws]. rewrite Hws, Hclose. reflexivity.
  - change (is_ws "{") with false. cbv iota.
    change (Ascii.eqb "{" "{") with true.
    cbv iota. cbn [skip_ws]. rewrite Hws, Hclose. reflexivity.
Qed.

Lemma skip_ws_delimiter (c : ascii) (rest : string) :
  c = ","%char \/ c = "]"%char \/ c = "}"%char ->
  skip_ws (String c rest) = String c rest.
Proof. intros [-> | [-> | ->]]; reflexivity. Qed.

(** ** The elements of an array *)

Lemma read_elements_join (l : list json) (texts : list string) :
  Forall2 reads_back l texts -> texts <> [] ->
  forall rest acc,
    exists fuel l',
      read_elements fuel (comma_join texts ++ String "]" rest) acc
      = Parsed (JArray (rev acc ++ l')) rest /\
      Forall2 json_equiv l' l.
Proof.
  induction 1 as [|v text l texts [_ Hread] Hrest IH]; intros Hne rest acc;
    [contradiction|].
  destruct texts as [|text2 texts].
  - inversion Hrest; subst.
    destruct (Hread (String "]" rest)) as [f1 [v' [Hv Hequiv]]];
      [apply ends_number_delimiter; tauto|].
    exists (S f1), [v']. split; [|repeat constructor; exact Hequiv].
    cbn [comma_join]. rewrite read_elements_step, Hv.
    rewrite skip_ws_delimiter by tauto.
    change (Ascii.eqb "]" ",") with false. change (Ascii.eqb "]" "]") with true.
    reflexivity.
  - destruct (Hread (String "," (comma_join (text2 :: texts) ++ String "]" rest)))
      as [f1 [v' [Hv Hequiv]]]; [apply ends_number_delimiter; tauto|].
    destruct (IH ltac:(discriminate) rest (v' :: acc)) as [f2 [l' [Hl Hequivs]]].
    exists (S (f1 + f2)), (v' :: l'). split; [|constructor; assumption].
    change (comma_join (text :: text2 :: texts))
      with (text ++ String "," (comma_join (text2 :: texts)))%string.
    rewrite string_app_assoc. cbn [append].
    rewrite read_elements_step.
    rewrite (read_value_fuel_le f1 (f1 + f2) _ _ _ Hv) by lia.
    rewrite skip_ws_delimiter by tauto.
    change (Ascii.eqb "," ",") with true. cbv iota.
    rewrite (read_elements_fuel_le f2 (f1 + f2) _ _ _ _ Hl) by lia.
    cbn [rev]. rewrite <- app_assoc. reflexivity.
Qed.

(** ** The members of an object *)

Lemma set_member_new (key : string) (v : json) (acc : list (string * json)) :
  ~ In key (map fst acc) -> set_member key v acc = acc ++ [(key, v)].
Proof.
  induction acc as [|[k w] acc IH]; intros Hfresh; [reflexivity|].
  cbn [set_member]. cbn [map fst In] in Hfresh.
  destruct (String.eqb_spec k key) as [Heq | Hne]; [tauto|].
  rewrite IH by tauto. reflexivity.
Qed.

Lemma read_members_join (m : list (string * json)) (texts : list string) :
  Forall2 member_reads_back m texts -> texts <> [] ->
  forall rest acc,
    NoDup (map fst acc ++ map fst m) ->
    exists fuel m',
      read_members fuel (comma_join texts ++ String "}" rest) acc
      = Parsed (JObject (acc ++ m')) rest /\
      Forall2 (fun a b => fst a = fst b /\ json_equiv (snd a) (snd b)) m' m.
Proof.
  induction 1 as [|[key v] text m texts [written [-> [_ Hread]]] Hrest IH];
    intros Hne rest acc Hkeys; [contradiction|].
  cbn [fst snd] in *.
  assert (~ In key (map fst acc)) as Hfresh.
  { cbn [map fst] in Hkeys. apply NoDup_remove_2 in Hkeys.
    intros Hin. apply Hkeys, in_or_app. left. exact Hin. }
  destruct texts as [|text2 texts].
  - inversion Hrest; subst.
    destruct (Hread (String "}" rest)) as [f1 [v' [Hv Hequiv]]];
      [apply ends_number_delimiter; tauto|].
    exists (S f1), [(key, v')]. split; [|repeat constructor; exact Hequiv].
    cbn [comma_join]. rewrite !string_app_assoc. cbn [append].
    rewrite read_members_step, Hv.
    rewrite skip_ws_delimiter by tauto.
    change (Ascii.eqb "}" ",") with false. change (Ascii.eqb "}" "}") with true.
    cbv iota. rewrite set_member_new by exact Hfresh. reflexivity.
  - destruct (Hread (String "," (comma_join (text2 :: texts) ++ String "}" rest)))
      as [f1 [v' [Hv Hequiv]]]; [apply ends_number_delimiter; tauto|].
    destruct (IH ltac:(discriminate) rest (acc ++ [(key, v')])) as [f2 [m' [Hm Hequivs]]].
    { rewrite map_app, <- app_assoc. exact Hkeys. }
    exists (S (f1 + f2)), ((key, v') :: m').
    split; [|constructor; [split; [reflexivity | exact Hequiv] | exact Hequivs]].
    change (comma_join ((QuoteJSONString key ++ String ":" written)%string
                          :: text2 :: texts))
      with ((QuoteJSONString key ++ String ":" written)
            ++ String "," (comma_join (text2 :: texts)))%string.
    rewrite !string_app_assoc. cbn [append].
    rewrite read_members_step.
    rewrite (read_value_fuel_le f1 (f1 + f2) _ _ _ Hv) by lia.
    rewrite skip_ws_delimiter by tauto.
    change (Ascii.eqb "," ",") with true. cbv iota.
    rewrite set_member_new by exact Hfresh.
    rewrite (read_members_fuel_le f2 (f1 + f2) _ _ _ _ Hm) by lia.
    rewrite <- app_assoc. reflexivity.
Qed.

(** ** Every written value reads back *)

Lemma string_append_nil (s : string) : (s ++ "")%string = s.
Proof. induction s as [|c s IH]; simpl; [reflexivity | rewrite IH; reflexivity]. Qed.

Lemma comma_join_head (text : string) (texts : list string) (after : string) :
  value_start text ->
  exists c tail,
    (comma_join (text :: texts) ++ after)%string = String c tail /\
    is_ws c = false /\ Ascii.eqb c "]" = false.
Proof.
  intros [c [tail [-> [Hws Hclose]]]].
  destruct texts as [|text2 texts]; cbn [comma_join append];
    eexists _, _; repeat split; assumption.
Qed.

Lemma elements_read_back (l : list json) :
  Forall (fun v => forall text, JSON_stringify v = Some text ->
                                distinct_keys v -> reads_back v text) l ->
  Forall distinct_keys l ->
  forall texts, stringify_elements l = Some texts -> Forall2 reads_back l texts.
Proof.
  induction 1 as [|v l Hv Hl IH]; intros Hkeys texts; cbn [stringify_elements].
  - intros [= <-]. constructor.
  - inversion Hkeys as [|? ? Hvkeys Hlkeys]; subst.
    destruct (JSON_stringify v) as [text|] eqn:Htext; [|discriminate].
    destruct (stringify_elements l) as [rest|] eqn:Hrest; [|discriminate].
    intros [= <-]. constructor; [apply Hv; [reflexivity | exact Hvkeys]|].
    apply IH; [exact Hlkeys | reflexivity].
Qed.

Lemma members_read_back (m : list (string * json)) :
  Forall (fun kv => forall text, JSON_stringify (snd kv) = Some text ->
                                 distinct_keys (snd kv) ->
                                 reads_back (snd kv) text) m ->
  Forall (fun kv => distinct_keys (snd kv)) m ->
  forall texts, stringify_members m = Some texts ->
                Forall2 member_reads_back m texts.
Proof.
  induction 1 as [|[key v] m Hv Hm IH]; intros Hkeys texts; cbn [stringify_members].
  - intros [= <-]. constructor.
  - inversion Hkeys as [|? ? Hvkeys Hmkeys]; subst. cbn [snd] in *.
    destruct (JSON_stringify v) as [text|] eqn:Htext; [|discriminate].
    destruct (stringify_members m) as [rest|] eqn:Hrest; [|discriminate].
    intros [= <-]. constructor.
    + exists text. split; [reflexivity|]. apply Hv; [reflexivity | exact Hvkeys].
    + apply IH; [exact Hmkeys | reflexivity].
Qed.

Lemma stringify_reads_back (v : json) :
  forall text, JSON_stringify v = Some text -> distinct_keys v -> reads_back v text.
Proof.
  induction v as [ |b|q|s|l IH|m IH] using json_nested_ind; intros text Htext Hkeys.
  - injection Htext as <-. apply literal_reads_back.
  - destruct b; injection Htext as <-; apply literal_reads_back.
  - apply number_reads_back, Htext.
  - injection Htext as <-. apply string_reads_back.
  - rewrite JSON_stringify_array in Htext.
    destruct (stringify_elements l) as [texts|] eqn:Htexts; [|discriminate].
    injection Htext as <-.
    apply distinct_keys_array in Hkeys.
    pose proof (elements_read_back l IH Hkeys texts Htexts) as Hreads.
    split; [eexists _, _; repeat split|].
    intros rest _. cbn [append]. rewrite string_app_assoc. cbn [append].
    destruct Hreads as [|x text l texts Hx Hrest].
    + exists 1%nat, (JArray []). split; [reflexivity | repeat constructor].
    + destruct (comma_join_head text texts (String "]" rest) (proj1 Hx))
        as [c [tail [Hhead [Hws Hclose]]]].
      destruct (read_elements_join (x :: l) (text :: texts)
                  (Forall2_cons _ _ Hx Hrest) ltac:(discriminate) rest [])
        as [fuel [l' [Hread Hequiv]]].
      exists (S fuel), (JArray l'). split; [|constructor; exact Hequiv].
      rewrite Hhead in *.
      rewrite (proj1 (read_value_open fuel c tail Hws) Hclose). exact Hread.
  - rewrite JSON_stringify_object in Htext.
    destruct (stringify_members m) as [texts|] eqn:Htexts; [|discriminate].
    injection Htext as <-.
    apply distinct_keys_object in Hkeys as [Hnodup Hkeys].
    pose proof (members_read_back m IH Hkeys texts Htexts) as Hreads.
    split; [eexists _, _; repeat split|].
    intros rest _. cbn [append]. rewrite string_app_assoc. cbn [append].
    destruct Hreads as [|x text m texts Hx Hrest].
    + exists 1%nat, (JObject []). split; [reflexivity | repeat constructor].
    + destruct (read_members_join (x :: m) (text :: texts)
                  (Forall2_cons _ _ Hx Hrest) ltac:(discriminate) rest [] Hnodup)
        as [fuel [m' [Hread Hequiv]]].
      exists (S fuel), (JObject m'). split; [|constructor; exact Hequiv].
      destruct Hx as [written [-> _]].
      assert (exists tail,
                (comma_join ((QuoteJSONString (fst x) ++ String ":" written)%string
                               :: texts) ++ String "}" rest)%string
                = String double_quote tail) as [tail Hhead].
      { destruct texts; cbn [comma_join QuoteJSONString append]; eexists; reflexivity. }
      rewrite Hhead in *.
      rewrite (proj2 (read_value_open fuel double_quote tail eq_refl) eq_refl).
      exact Hread.
Qed.

(** ** Carts that can be written *)

Lemma Number_toString_integer (n : Z) :
  Z.abs n < 10 ^ 21 -> exists text, Number_toString (inject_Z n) = Some text.
Proof.
  intros Hn. unfold Number_toString. cbn [inject_Z Qnum Qden].
  assert (decimal_places (Pos.size_nat 1) 0 (Z.abs n) 1 = Some O) as ->.
  { cbn [Pos.size_nat decimal_places]. rewrite Z.mod_1_r. reflexivity. }
  change (10 ^ Z.of_nat 0) with 1. rewrite Z.mul_1_r, Z.div_1_r.
  destruct (Z.eqb_spec (Z.abs n) 0) as [_ | Hnz]; [eexists; reflexivity|].
  assert ((Z.abs n <? 10 ^ 21 * 1) && (1 <=? Z.abs n * 10 ^ 6) = true) as ->.
  { apply andb_true_iff. split; [apply Z.ltb_lt | apply Z.leb_le]; lia. }
  eexists. reflexivity.
Qed.

Lemma json_of_item_written (item : CartItem.t) :
  printable_line item -> exists text, JSON_stringify (json_of_item item) = Some text.
Proof.
  intros [Hid [Hstock [Hquantity Hprice]]].
  destruct (Number_toString_integer _ Hid) as [tid Htid].
  destruct (Number_toString_integer _ Hstock) as [tstock Htstock].
  destruct (Number_toString_integer _ Hquantity) as [tquantity Htquantity].
  destruct (Number_toString (CartItem.price item)) as [tprice|] eqn:Htprice;
    [|contradiction].
  unfold json_of_item. rewrite JSON_stringify_object.
  cbn [stringify_members JSON_stringify].
  rewrite Htid, Htstock, Htquantity, Htprice. eexists. reflexivity.
Qed.

Lemma json_of_cart_written (K : Cart) :
  Forall printable_line K ->
  exists text, JSON_stringify (json_of_cart K) = Some text.
Proof.
  intros Hlines. unfold json_of_cart. rewrite JSON_stringify_array.
  assert (exists texts, stringify_elements (map json_of_item K) = Some texts)
    as [texts ->]; [|eexists; reflexivity].
  induction Hlines as [|item K Hitem HK [texts IH]]; [eexists; reflexivity|].
  destruct (json_of_item_written item Hitem) as [text Htext].
  cbn [map stringify_elements]. rewrite Htext, IH. eexists. reflexivity.
Qed.

Lemma json_of_cart_keys (K : Cart) : distinct_keys (json_of_cart K).
Proof.
  unfold json_of_cart. apply distinct_keys_array.
  apply Forall_forall. intros v Hv.
  apply in_map_iff in Hv as [item [<- _]].
  unfold json_of_item. apply distinct_keys_object. split.
  - cbn [map fst]. repeat constructor; cbn [In];
      intros H; repeat destruct H as [H | H]; try discriminate H; exact H.
  - repeat constructor.
Qed.

(** X15: [JSON.parse] undoes [JSON.stringify]: for every value whose
    objects have distinct keys and whose numbers [JSON.stringify] writes
    in plain decimal notation, the text written parses, without
    [SyntaxError], to the value, each number the same number. *)
Theorem JSON_parse_undoes_stringify (v : json) (text : string) :
  JSON_stringify v = Some text -> distinct_keys v ->
  exists v', JSON_parse text = Return v' /\ json_equiv v' v.
Proof.
  intros Htext Hkeys.
  destruct (stringify_reads_back v text Htext Hkeys) as [_ Hread].
  destruct (Hread EmptyString I) as [fuel [v' [Hparsed Hequiv]]].
  rewrite string_append_nil in Hparsed.
  exists v'. split; [|exact Hequiv].
  apply (JSON_parse_any_fuel text fuel v' EmptyString Hparsed). reflexivity.
Qed.

Lemma JSON_parse_undoes_stringify_witness :
  exists v',
    JSON_parse (with_quotes "{'a':[-0.125,true,null],'b':'x\\y'}") = Return v' /\
    json_equiv v'
      (JObject [("a"%string, JArray [JNumber (-1 # 8); JBool true; JNull]);
                ("b"%string, JString "x\y")]).
Proof.
  apply (JSON_parse_undoes_stringify
           (JObject [("a"%string, JArray [JNumber (-1 # 8); JBool true; JNull]);
                     ("b"%string, JString "x\y")])).
  - reflexivity.
  - simpl. repeat split; repeat constructor; simpl; intros H;
      repeat destruct H as [H | H]; try discriminate H; exact H.
Defined.

(** X16: a persisted cart is restored: for a cart whose ids, stocks and
    quantities are below 10^21 in absolute value and whose prices are
    decimal numbers [JSON.stringify] writes in plain notation, the effect
    stores a text, and the initializer run on the stored value returns,
    without failure, the cart that was stored: the same lines in the same
    order, each field the same string or the same number. *)
Theorem persisted_cart_is_restored (K : Cart) :
  Forall printable_line K ->
  exists saved,
    persist K = Some saved /\
    exists v', initial_cart saved = Return v' /\ json_equiv v' (json_of_cart K).
Proof.
  intros Hlines. unfold persist.
  destruct (json_of_cart_written K Hlines) as [text Htext]. rewrite Htext.
  exists (Some text). split; [reflexivity|].
  destruct (stringify_reads_back _ text Htext (json_of_cart_keys K))
    as [[c [tail [-> _]]] Hread].
  destruct (Hread EmptyString I) as [fuel [v' [Hparsed Hequiv]]].
  rewrite string_append_nil in Hparsed.
  exists v'. split; [|exact Hequiv].
  cbn [initial_cart].
  apply (JSON_parse_any_fuel _ fuel v' EmptyString Hparsed). reflexivity.
Qed.

Lemma persisted_cart_is_restored_witness :
  exists saved,
    persist [shirt_line 2; spread_product sold_out_mug 1] = Some saved /\
    exists v',
      initial_cart saved = Return v' /\
      json_equiv v' (json_of_cart [shirt_line 2; spread_product sold_out_mug 1]).
Proof.
  apply persisted_cart_is_restored.
  repeat constructor; simpl; try lia; discriminate.
Defined.

(** * The buttons and the guards *)

Lemma updateQuantity_accepted (cart : Cart) (item : CartItem.t) (q maxStock : Z) :
  NoDup (map CartItem.id cart) -> In item cart -> 1 <= q <= maxStock ->
  In (spread_item item q) (updateQuantity (CartItem.id item) q maxStock cart).
Proof.
  intros Hnd Hin Hq. unfold updateQuantity.
  destruct (Z.ltb_spec q 1); [lia|]. rewrite Z.gtb_ltb.
  destruct (Z.ltb_spec maxStock q); [lia|]. simpl.
  apply in_map_iff. exists item. split; [|exact Hin].
  unfold set_line. rewrite Z.eqb_refl. reflexivity.
Qed.

Lemma changed_line_changes_cart (cart cart' : Cart) (item : CartItem.t) (q : Z) :
  NoDup (map CartItem.id cart) -> In item cart ->
  In (spread_item item q) cart' -> q <> CartItem.quantity item ->
  cart' <> cart.
Proof.
  intros Hnd Hin Hin' Hq ->.
  apply Hq. symmetry.
  change q with (CartItem.quantity (spread_item item q)).
  f_equal. apply (unique_line cart); try assumption. reflexivity.
Qed.

(** X17: the buttons of a cart item are disabled exactly when their click
    would change nothing: for a cart with distinct ids and a line of it with
    a quantity between 1 and its stock, [-] is disabled if and only if
    [updateQuantity] returns the cart unchanged for the quantity minus 1,
    and [+] if and only if it does for the quantity plus 1. *)
Theorem disabled_buttons_match_the_guard (cart : Cart) (item : CartItem.t) :
  NoDup (map CartItem.id cart) -> In item cart -> line_ok item ->
  (minus_disabled item = true <->
   updateQuantity (CartItem.id item) (CartItem.quantity item - 1)
     (CartItem.stock item) cart = cart) /\
  (plus_disabled item = true <->
   updateQuantity (CartItem.id item) (CartItem.quantity item + 1)
     (CartItem.stock item) cart = cart).
Proof.
  intros Hnd Hin Hok. unfold line_ok in Hok.
  unfold minus_disabled, plus_disabled. rewrite Z.geb_leb, !Z.leb_le.
  split; split.
  - intros Hq. unfold updateQuantity.
    destruct (Z.ltb_spec (CartItem.quantity item - 1) 1); [reflexivity | lia].
  - intros Hsame.
    destruct (Z.le_gt_cases (CartItem.quantity item) 1) as [Hle | Hgt]; [exact Hle|].
    exfalso. revert Hsame.
    apply (changed_line_changes_cart cart _ item (CartItem.quantity item - 1));
      try assumption; [|lia].
    apply updateQuantity_accepted; try assumption. lia.
  - intros Hq. unfold updateQuantity. rewrite Z.gtb_ltb.
    destruct (Z.ltb_spec (CartItem.stock item) (CartItem.quantity item + 1));
      [rewrite orb_true_r; reflexivity | lia].
  - intros Hsame.
    destruct (Z.le_gt_cases (CartItem.stock item) (CartItem.quantity item))
      as [Hle | Hgt]; [exact Hle|].
    exfalso. revert Hsame.
    apply (changed_line_changes_cart cart _ item (CartItem.quantity item + 1));
      try assumption; [|lia].
    apply updateQuantity_accepted; try assumption. lia.
Qed.

Lemma disabled_buttons_match_the_guard_witness :
  (minus_disabled (shirt_line 2) = true <->
   updateQuantity 1 1 2 [shirt_line 2] = [shirt_line 2]) /\
  (plus_disabled (shirt_line 2) = true <->
   updateQuantity 1 3 2 [shirt_line 2] = [shirt_line 2]).
Proof.
  apply (disabled_buttons_match_the_guard [shirt_line 2] (shirt_line 2)).
  - apply distinct_ids_NoDup. reflexivity.
  - left. reflexivity.
  - unfold line_ok. simpl. lia.
Defined.

(** ** The lines of a session come from the catalog *)

Lemma spread_item_product (product : Product.t) (q q' : Z) :
  spread_item (spread_product product q) q' = spread_product product q'.
Proof. reflexivity. Qed.

Lemma click_lines_from_catalog (products : Catalog) (cart cart' : Cart) :
  (forall item, In item cart ->
     exists product, In product products /\
                     item = spread_product product (CartItem.quantity item)) ->
  click products cart cart' ->
  forall item, In item cart' ->
    exists product, In product products /\
                    item = spread_product product (CartItem.quantity item).
Proof.
  intros Hlines Hclick.
  assert (forall id q maxStock item,
            In item (updateQuantity id q maxStock cart) ->
            exists product, In product products /\
                            item = spread_product product (CartItem.quantity item))
    as Hupdate.
  { intros id q maxStock item. unfold updateQuantity.
    destruct (_ || _); [apply Hlines|].
    intros Hin. apply in_map_iff in Hin as [line [<- Hin]].
    destruct (Hlines line Hin) as [product [Hp Hline]].
    exists product. split; [exact Hp|].
    unfold set_line. destruct (_ =? _); [|exact Hline].
    rewrite Hline at 1. reflexivity. }
  destruct Hclick as [product Hp | line Hin | line Hin | line Hin]; intros item Hitem.
  - unfold ProductCard_click in Hitem.
    destruct (isOutOfStock product); [apply Hlines, Hitem|].
    unfold addToCart in Hitem.
    destruct (find _ cart) as [existing|].
    + destruct (_ <? _); [|apply Hlines, Hitem].
      apply in_map_iff in Hitem as [line [<- Hin]].
      destruct (Hlines line Hin) as [p [Hpin Hline]].
      exists p. split; [exact Hpin|].
      unfold increment_line. destruct (_ =? _); [|exact Hline].
      rewrite Hline at 1. reflexivity.
    + apply in_app_or in Hitem as [Hitem | [<- | []]]; [apply Hlines, Hitem|].
      exists product. split; [exact Hp | reflexivity].
  - unfold CartItem_minus in Hitem.
    destruct (minus_disabled line); [apply Hlines, Hitem | apply (Hupdate _ _ _ _ Hitem)].
  - unfold CartItem_plus in Hitem.
    destruct (plus_disabled line); [apply Hlines, Hitem | apply (Hupdate _ _ _ _ Hitem)].
  - unfold CartItem_remove, removeFromCart in Hitem.
    apply filter_In in Hitem as [Hitem _]. apply Hlines, Hitem.
Qed.

(** X18: in a session that starts with the empty cart, over a catalog
    with distinct product ids, every line of the cart shows a product of the
    catalog (its id, title, category, price, stock and thumbnail are those
    of the product), in a quantity between 1 and the stock of that
    product. *)
Theorem session_lines_come_from_the_catalog (products : Catalog) (cart : Cart) :
  NoDup (map Product.id products) ->
  session products [] cart ->
  lines_from_catalog products cart.
Proof.
  intros Hnd Hsession.
  assert (cart_inv cart /\
          forall item, In item cart ->
            exists product, In product products /\
                            item = spread_product product (CartItem.quantity item))
    as [[_ Hok] Hlines].
  { induction Hsession as [|mid final Hsession [Hinv Hlines] Hclick].
    - split; [apply cart_invb_spec; reflexivity | intros item []].
    - split; [|apply (click_lines_from_catalog products mid); assumption].
      apply (click_inv products mid); try assumption.
      intros item product Hitem Hp Hid.
      destruct (Hlines item Hitem) as [p [Hpin Hline]].
      rewrite Hline in Hid |- *. simpl in *.
      f_equal. apply (unique_product products); assumption. }
  intros item Hitem.
  destruct (Hlines item Hitem) as [product [Hp Hline]].
  exists product. split; [exact Hp|]. split; [exact Hline|].
  rewrite Forall_forall in Hok. specialize (Hok item Hitem).
  unfold line_ok in Hok. rewrite Hline in Hok at 3. exact Hok.
Qed.

Lemma session_lines_come_from_the_catalog_witness :
  lines_from_catalog sample_catalog
    (CartItem_plus (shirt_line 1) (ProductCard_click red_shirt [])).
Proof.
  apply session_lines_come_from_the_catalog.
  - apply distinct_ids_NoDup. reflexivity.
  - apply session_click with (mid := ProductCard_click red_shirt []).
    + apply session_click with (mid := []); [apply session_start|].
      apply click_add. left. reflexivity.
    + apply click_plus. left. reflexivity.
Defined.

(** * The two sort orders *)

Lemma StronglySorted_snoc {A : Type} (R : A -> A -> Prop) (l : list A) (a : A) :
  StronglySorted R l -> Forall (fun y => R y a) l -> StronglySorted R (l ++ [a]).
Proof.
  induction 1 as [|x l Hl IH Hx]; intros Hall; simpl.
  - repeat constructor.
  - inversion Hall as [|? ? Hxa Hla]; subst.
    constructor; [apply IH, Hla|].
    apply Forall_app. split; [exact Hx | repeat constructor; exact Hxa].
Qed.

Lemma StronglySorted_rev {A : Type} (R : A -> A -> Prop) (l : list A) :
  StronglySorted R l -> StronglySorted (fun a b => R b a) (rev l).
Proof.
  induction 1 as [|x l Hl IH Hx]; simpl; [constructor|].
  apply StronglySorted_snoc; [exact IH|].
  apply Forall_rev. exact Hx.
Qed.

Lemma distinct_prices_filter (f : Product.t -> bool) (l : list Product.t) :
  distinct_prices l -> distinct_prices (filter f l).
Proof.
  induction l as [|p rest IH]; simpl; [tauto|].
  intros [Hp Hrest]. destruct (f p); [|apply IH, Hrest].
  simpl. split; [|apply IH, Hrest].
  apply Forall_forall. intros q Hq. apply filter_In in Hq as [Hq _].
  rewrite Forall_forall in Hp. apply Hp, Hq.
Qed.

(** Among products of distinct prices, at most one has a given price. *)
Lemma one_at_a_price (f : Product.t -> bool) (x : Product.t) (l : list Product.t) :
  distinct_prices l ->
  (forall y, f y = true -> (Product.price x == Product.price y)%Q) ->
  (List.length (filter f l) <= 1)%nat.
Proof.
  intros Hdistinct Hprice. induction l as [|p rest IH]; simpl; [lia|].
  destruct Hdistinct as [Hp Hrest].
  destruct (f p) eqn:Hfp; [|apply IH, Hrest].
  assert (filter f rest = []) as ->; [|simpl; lia].
  destruct (filter f rest) as [|q others] eqn:Hfilter; [reflexivity|].
  assert (In q (filter f rest)) as Hq by (rewrite Hfilter; left; reflexivity).
  apply filter_In in Hq as [Hq Hfq].
  rewrite Forall_forall in Hp. exfalso. apply (Hp q Hq).
  rewrite <- (Hprice p Hfp). apply Hprice, Hfq.
Qed.

Lemma short_permutation {A : Type} (l l' : list A) :
  Permutation l l' -> (List.length l' <= 1)%nat -> l = l'.
Proof.
  intros Hperm Hlen. destruct l' as [|y [|z l']]; simpl in Hlen; try lia.
  - apply Permutation_sym, Permutation_nil in Hperm. exact Hperm.
  - apply Permutation_sym, Permutation_length_1_inv in Hperm. exact Hperm.
Qed.

Lemma filter_permutation {A : Type} (f : A -> bool) (l l' : list A) :
  Permutation l l' -> Permutation (filter f l) (filter f l').
Proof.
  induction 1 as [|x l l' Hperm IH|x y l|l l' l'' H1 IH1 H2 IH2]; simpl.
  - constructor.
  - destruct (f x); [apply perm_skip|]; exact IH.
  - destruct (f x), (f y); try apply Permutation_refl. apply perm_swap.
  - apply perm_trans with (filter f l'); assumption.
Qed.

(** X19: when no two products of the catalog have the same price, [High
    to Low] shows exactly the reverse of [Low to High]. *)
Theorem high_is_low_reversed (C : Catalog) (search selected : string) :
  distinct_prices C ->
  filteredProducts C search selected "high"
  = rev (filteredProducts C search selected "low").
Proof.
  intros Hdistinct. unfold filteredProducts. rewrite filters_are_visibleb.
  set (F := filter (visibleb search selected) C).
  assert (distinct_prices F) as HF by apply distinct_prices_filter, Hdistinct.
  symmetry. apply Array_sort_determined.
  - apply compare_price_trans.
  - apply compare_price_total.
  - apply perm_trans with (Array_sort (compare_price "low") F).
    + apply Permutation_sym, Permutation_rev.
    + apply Array_sort_perm.
  - apply (StronglySorted_rev
             (fun a b => Qle_bool (compare_price "low" a b) 0 = true)).
    apply Array_sort_sorted.
    + apply compare_price_trans.
    + intros x y H. exact H.
    + intros x y H.
      destruct (compare_price_total "low" x y) as [Hxy | Hyx]; [congruence | exact Hyx].
  - intros x. apply short_permutation.
    + apply filter_permutation.
      apply perm_trans with (Array_sort (compare_price "low") F).
      * apply Permutation_sym, Permutation_rev.
      * apply Array_sort_perm.
    + apply (one_at_a_price _ x); [exact HF|].
      intros y Htie. apply andb_true_iff in Htie as [Hxy Hyx].
      apply Qle_bool_iff in Hxy, Hyx.
      unfold compare_price in Hxy, Hyx. simpl in Hxy, Hyx. lra.
Qed.

Lemma high_is_low_reversed_witness :
  filteredProducts [red_shirt; red_hat; sold_out_mug] "" "all" "high"
  = rev (filteredProducts [red_shirt; red_hat; sold_out_mug] "" "all" "low").
Proof.
  apply high_is_low_reversed.
  simpl. repeat split; repeat constructor; intros H; discriminate H.
Defined.
